(** * mysql-sanitizer: the server-side relay of [server_connection.go]

    A shallow embedding of the server session handler: packet
    classification, the row sanitizer, row reconstruction and the
    handshake / command loop, followed by the properties of the
    specification that concern them. *)

From Stdlib Require Import List Bool Arith NArith Lia.
From Stdlib Require Import Strings.String Strings.Ascii Strings.Byte.
From Stdlib Require Vector DecimalString.
Import ListNotations.

Set Implicit Arguments.

(** ** Bytes, packets and columns *)

(** Go's [[]byte] is a [list byte]; [len] is a Go [int], read here as [N]. *)
Definition len {A : Type} (s : list A) : N := N.of_nat (List.length s).

(** Conversion to [uint32], with its wrap-around. *)
Definition uint32 (n : N) : N := (n mod 2 ^ 32)%N.

(** [mysqlproto.Packet]: a sequence id and a payload. *)
Record Packet : Type := mkPacket {
  SequenceID : byte;
  Payload : list byte
}.

(** The zero value [mysqlproto.Packet{}]. *)
Definition zeroPacket : Packet := mkPacket x00 [].

(** Go [error] values; [None] at type [option error] is [nil]. *)
Definition error : Type := string.

(** Modelled from the spec: the type Column, which is missing: a name,
    the declared maximal length (a [uint32]) and the type and flags,
    kept as the bytes they were read from. The handler reads [Length]
    only. *)
Record Column : Type := mkColumn {
  Name : string;
  Length : N;
  TypeFlags : list byte
}.

(** The command codes declared at the top of the file. *)
Definition COM_QUIT : byte := x01.
Definition COM_INIT_DB : byte := x02.
Definition COM_QUERY : byte := x03.
Definition COM_FIELD_LIST : byte := x04.
Definition COM_STATISTICS : byte := x09.
Definition COM_PROCESS_KILL : byte := x0c.
Definition COM_PING : byte := x0e.

(** ** Partial operations

    An index out of range is a run-time panic in Go; a pure operation
    that may panic returns [option], with [None] for the panic. *)

Definition obind {A B : Type} (m : option A) (k : A -> option B) : option B :=
  match m with
  | Some a => k a
  | None => None
  end.

(** [packet.Payload[0]] *)
Definition payload0 (packet : Packet) : option byte :=
  match Payload packet with
  | b :: _ => Some b
  | [] => None
  end.

(** ** Packet classification *)

Definition packetIsOK (packet : Packet) : option bool :=
  obind (payload0 packet) (fun b =>
  Some (Byte.eqb b x00 && (7 <=? len (Payload packet))%N)).

Definition packetIsERR (packet : Packet) : option bool :=
  obind (payload0 packet) (fun b => Some (Byte.eqb b xff)).

Definition packetIsEOF (packet : Packet) : option bool :=
  obind (payload0 packet) (fun b =>
  Some (Byte.eqb b xfe && (len (Payload packet) <? 9)%N)).

Definition packetCommand (packet : Packet) : option byte :=
  payload0 packet.

(** Go's short-circuit [||] over operands that may panic. *)
Definition orElse (a : option bool) (b : option bool) : option bool :=
  obind a (fun x => if x then Some true else b).

(** [packetIsOK(p) || packetIsERR(p) || packetIsEOF(p)], the test the
    three response loops share. *)
Definition isTerminal (packet : Packet) : option bool :=
  orElse (packetIsOK packet) (orElse (packetIsERR packet) (packetIsEOF packet)).

Definition supportedCommand (packet : Packet) : option bool :=
  obind (packetCommand packet) (fun cmd =>
  Some (Byte.eqb cmd COM_QUIT || Byte.eqb cmd COM_INIT_DB
        || Byte.eqb cmd COM_QUERY || Byte.eqb cmd COM_FIELD_LIST
        || Byte.eqb cmd COM_STATISTICS || Byte.eqb cmd COM_PROCESS_KILL
        || Byte.eqb cmd COM_PING)).

(** ** Hexadecimal encoding ([encoding/hex]) *)

Definition hextable : list byte :=
  list_byte_of_string "0123456789abcdef".

Definition hexDigit (n : N) : byte := nth (N.to_nat n) hextable x30.

(** [hex.Encode]: two lowercase digits per source byte, high nibble first. *)
Fixpoint hexEncode (src : list byte) : list byte :=
  match src with
  | [] => []
  | v :: rest =>
      hexDigit (N.shiftr (Byte.to_N v) 4)
        :: hexDigit (N.land (Byte.to_N v) 15)
        :: hexEncode rest
  end.

(** [sha256.Size] *)
Definition sha256_Size : nat := 32.

(** ** The packet codec

    The length-encoded integer and string codec lives in another file
    of the repository; the definitions of this module follow its
    description in the specification. The handler below is stated over
    an arbitrary codec and these definitions instantiate it at concrete
    inputs. *)
Module SpecCodec.

(** Modelled from the spec: the parser of NewPacketParser, which is
    missing, kept as the bytes of the payload not yet consumed. *)
Definition PacketParser : Type := list byte.

Definition NewPacketParser (packet : Packet) : PacketParser :=
  Payload packet.

Definition byteOfN (n : N) : byte :=
  match Byte.of_N (n mod 256) with
  | Some b => b
  | None => x00
  end.

(** Little-endian value of a run of bytes. *)
Fixpoint leValue (bs : list byte) : N :=
  match bs with
  | [] => 0
  | b :: rest => Byte.to_N b + 256 * leValue rest
  end.

(** The [width] low bytes of [v], least significant first. *)
Fixpoint leBytes (width : nat) (v : N) : list byte :=
  match width with
  | O => []
  | S w => byteOfN v :: leBytes w (v / 256)
  end.

(** Exactly [n] bytes, or a failure when fewer remain. *)
Definition readBytes (n : nat) (parser : PacketParser)
  : option (list byte * PacketParser) :=
  if List.length parser <? n then None
  else Some (firstn n parser, skipn n parser).

Definition readLE (width : nat) (parser : PacketParser)
  : option (N * PacketParser) :=
  obind (readBytes width parser) (fun '(bs, rest) => Some (leValue bs, rest)).

(** Modelled from the spec: the length prefix read by readEncodedInt
    and readStringOrNull, which are missing: a first byte below 0xFB
    is the value, 0xFB is NULL, 0xFC, 0xFD and 0xFE announce 2, 3 and 8
    little-endian bytes. The inner [None] is NULL; the outer [None] is
    the MalformedPacket failure, which the two-result Go signatures
    used by the handler can only deliver as a panic. The first byte
    0xFF, on which the description is silent, is taken as malformed. *)
Definition readPrefix (parser : PacketParser)
  : option (option N * PacketParser) :=
  match parser with
  | [] => None
  | b :: rest =>
      let v := Byte.to_N b in
      if v <? 251 then Some (Some v, rest)
      else if v =? 251 then Some (None, rest)
      else if v =? 252 then option_map (fun '(n, r) => (Some n, r)) (readLE 2 rest)
      else if v =? 253 then option_map (fun '(n, r) => (Some n, r)) (readLE 3 rest)
      else if v =? 254 then option_map (fun '(n, r) => (Some n, r)) (readLE 8 rest)
      else None
  end%N.

(** Modelled from the spec: readEncodedInt, which is missing. NULL is
    used only in string contexts, so a bare integer that reads as NULL
    is malformed. *)
Definition ReadEncodedInt (parser : PacketParser)
  : option (N * PacketParser) :=
  obind (readPrefix parser) (fun '(n, rest) =>
  match n with
  | Some v => Some (v, rest)
  | None => None
  end).

(** Modelled from the spec: readStringOrNull, which is missing: the
    prefix, then [(empty, false)] for NULL, else exactly that many
    bytes and [true]. *)
Definition ReadStringOrNull (parser : PacketParser)
  : option (list byte * bool * PacketParser) :=
  obind (readPrefix parser) (fun '(n, rest) =>
  match n with
  | None => Some ([], false, rest)
  | Some v =>
      obind (readBytes (N.to_nat v) rest) (fun '(bs, rest') =>
      Some (bs, true, rest'))
  end).

(** Modelled from the spec: writeEncodedInt, which is missing (the
    code calls it LengthEncodedInt): the minimal-width form. *)
Definition LengthEncodedInt (v : N) : list byte :=
  (if v <? 251 then [byteOfN v]
   else if v <? 2 ^ 16 then xfc :: leBytes 2 v
   else if v <? 2 ^ 24 then xfd :: leBytes 3 v
   else xfe :: leBytes 8 v)%N.

(** Modelled from the spec: the synthesized error packet of
    ErrorPacket, which is missing: 0xFF, the error code in two
    little-endian bytes, the marker byte and the SQL state, then the
    message. The description fixes neither the marker's value nor the
    sequence id nor the rendering of the message; the protocol's '#'
    is taken, the sequence id is the one passed in, and the message is
    the format string followed by the command byte. *)
Definition ErrorPacket (sequenceID : byte) (code : N) (state : string)
    (format : string) (arg : byte) : Packet :=
  mkPacket sequenceID
    (xff :: leBytes 2 code ++ x23 :: list_byte_of_string state
         ++ list_byte_of_string format ++ [arg]).

(** Modelled from the spec: the fields of a column definition, read
    by ReadColumn, which is missing: the strings catalog, schema, table,
    original table, name and original name, then the fixed-length
    marker, the character set, the column length, the column type, the
    flags, the decimals and the filler. The description gives no widths
    for the fixed fields; the protocol's are taken: a length-encoded
    marker, then 2, 4, 1, 2, 1 and 2 bytes. *)
Definition readColumnFields (parser : PacketParser) : option Column :=
  obind (ReadStringOrNull parser) (fun '(_, _, p) =>
  obind (ReadStringOrNull p) (fun '(_, _, p) =>
  obind (ReadStringOrNull p) (fun '(_, _, p) =>
  obind (ReadStringOrNull p) (fun '(_, _, p) =>
  obind (ReadStringOrNull p) (fun '(name, _, p) =>
  obind (ReadStringOrNull p) (fun '(_, _, p) =>
  obind (ReadEncodedInt p) (fun '(_, p) =>
  obind (readLE 2 p) (fun '(_, p) =>
  obind (readLE 4 p) (fun '(length, p) =>
  obind (readBytes 1 p) (fun '(type, p) =>
  obind (readBytes 2 p) (fun '(flags, p) =>
  obind (readBytes 1 p) (fun '(_, p) =>
  obind (readBytes 2 p) (fun '(_, _) =>
  Some (mkColumn (string_of_list_byte name) length (type ++ flags))))))))))))))).

(** Modelled from the spec: ReadColumn, which is missing; a truncated
    field is the error it returns, beside the zero column. *)
Definition ReadColumn (parser : PacketParser)
  : option (Column * option error) :=
  match readColumnFields parser with
  | Some column => Some (column, None)
  | None => Some (mkColumn EmptyString 0 [], Some "malformed packet"%string)
  end.

End SpecCodec.

(** ** The server connection and its effects *)

(** [mysqlproto.Stream], seen from the handler: the results that the
    coming calls of [NextPacket] return, in order, and the packets
    written so far. Once [incoming] is exhausted the server has closed
    the connection and every read fails. *)
Record Stream : Type := mkStream {
  incoming : list (Packet * option error);
  written : list Packet
}.

(** [ProxyConnection], seen from the handler: the packets the client
    side has queued on [ServerChannel], the packets sent on
    [ClientChannel], oldest first, and whether [Close] has run. *)
Record ProxyConnection : Type := mkProxy {
  ServerChannel : list Packet;
  ClientChannel : list Packet;
  closed : bool
}.

Record ServerConnection : Type := mkServer {
  proxy : ProxyConnection;
  stream : Stream;
  sanitizing : bool;
  finished : bool
}.

Definition ToggleSanitizing (active : bool) (server : ServerConnection)
  : ServerConnection :=
  mkServer (proxy server) (stream server) active (finished server).

(** How a method of the connection ends: it returns, it panics, it
    blocks for ever on an empty channel, or the budget of loop
    iterations given to the model is spent. *)
Inductive outcome (A : Type) : Type :=
| Returned (a : A) (server : ServerConnection)
| Panicked (server : ServerConnection)
| Blocked (server : ServerConnection)
| OutOfFuel.

Arguments Panicked {A} server.
Arguments Blocked {A} server.
Arguments OutOfFuel {A}.

Definition M (A : Type) : Type := ServerConnection -> outcome A.

Definition ret {A : Type} (a : A) : M A := fun server => Returned a server.

Definition bind {A B : Type} (m : M A) (k : A -> M B) : M B :=
  fun server =>
    match m server with
    | Returned a server' => k a server'
    | Panicked server' => Panicked server'
    | Blocked server' => Blocked server'
    | OutOfFuel => OutOfFuel
    end.

Declare Scope relay_scope.
Delimit Scope relay_scope with relay.
Notation "x <- m ;; k" := (bind m (fun x => k))
  (at level 61, m at next level, right associativity) : relay_scope.
Notation "' pat <- m ;; k" := (bind m (fun x => match x with pat => k end))
  (at level 61, pat pattern, m at next level, right associativity) : relay_scope.
Notation "m ;; k" := (bind m (fun _ => k))
  (at level 61, right associativity) : relay_scope.
Open Scope relay_scope.

(** A pure operation that may panic, run inside a method. *)
Definition lift {A : Type} (o : option A) : M A :=
  fun server =>
    match o with
    | Some a => Returned a server
    | None => Panicked server
    end.

Definition outOfFuel {A : Type} : M A := fun _ => OutOfFuel.

(** [server.stream.NextPacket()] *)
Definition NextPacket : M (Packet * option error) :=
  fun server =>
    match incoming (stream server) with
    | [] => Returned (zeroPacket, Some "EOF"%string) server
    | result :: rest =>
        Returned result
          (mkServer (proxy server) (mkStream rest (written (stream server)))
                    (sanitizing server) (finished server))
    end.

(** Modelled from the spec: WritePacket, which is missing: the packet
    goes to the server stream; the callers ignore any failure. *)
Definition WritePacket (packet : Packet) : M unit :=
  fun server =>
    Returned tt
      (mkServer (proxy server)
                (mkStream (incoming (stream server))
                          (written (stream server) ++ [packet]))
                (sanitizing server) (finished server)).

(** [server.proxy.ClientChannel <- packet] *)
Definition sendClient (packet : Packet) : M unit :=
  fun server =>
    Returned tt
      (mkServer (mkProxy (ServerChannel (proxy server))
                         (ClientChannel (proxy server) ++ [packet])
                         (closed (proxy server)))
                (stream server) (sanitizing server) (finished server)).

(** [<-server.proxy.ServerChannel] *)
Definition recvServer : M Packet :=
  fun server =>
    match ServerChannel (proxy server) with
    | [] => Blocked server
    | packet :: rest =>
        Returned packet
          (mkServer (mkProxy rest (ClientChannel (proxy server))
                             (closed (proxy server)))
                    (stream server) (sanitizing server) (finished server))
    end.

(** [server.finished = true] *)
Definition setFinished : M unit :=
  fun server =>
    Returned tt (mkServer (proxy server) (stream server) (sanitizing server) true).

(** [server.proxy.Close()] *)
Definition closeProxy (server : ServerConnection) : ServerConnection :=
  mkServer (mkProxy (ServerChannel (proxy server)) (ClientChannel (proxy server)) true)
           (stream server) (sanitizing server) (finished server).

(** A row value: [None] is Go's [nil] slice, which [readRowValues]
    appends for a NULL field. *)
Definition rowValue : Type := option (list byte).

(** [len(row)] and [row...] of a row value: both see [nil] as empty. *)
Definition rowLen (row : rowValue) : N :=
  match row with
  | Some bytes => len bytes
  | None => 0
  end.

Definition rowBytes (row : rowValue) : list byte :=
  match row with
  | Some bytes => bytes
  | None => []
  end.

(** ** Observations on outcomes *)

(** The same outcome with the connection state transformed. *)
Definition onServer {A : Type} (f : ServerConnection -> ServerConnection)
    (o : outcome A) : outcome A :=
  match o with
  | Returned a server => Returned a (f server)
  | Panicked server => Panicked (f server)
  | Blocked server => Blocked (f server)
  | OutOfFuel => OutOfFuel
  end.

(** What the two peers have been sent when a method ends: the packets
    on the client channel and the packets written to the server. *)
Definition traffic {A : Type} (o : outcome A)
  : option (list Packet * list Packet) :=
  match o with
  | Returned _ server | Panicked server | Blocked server =>
      Some (ClientChannel (proxy server), written (stream server))
  | OutOfFuel => None
  end.

(** A method is oblivious of the sanitizing flag when setting the flag
    beforehand changes nothing of its outcome but the flag itself. *)
Definition oblivious {A : Type} (m : M A) : Prop :=
  forall (active : bool) (server : ServerConnection),
    m (ToggleSanitizing active server)
      = onServer (ToggleSanitizing active) (m server).

(** What is left for a session to consume: the results the stream
    still holds and the packets queued by the client side. Every pass
    through a loop of the handler takes one of them or ends the loop. *)
Definition budget (server : ServerConnection) : nat :=
  List.length (incoming (stream server))
  + List.length (ServerChannel (proxy server)).

Definition within (n : nat) (server : ServerConnection) : Prop :=
  budget server <= n.

(** [runs P m Q]: from a state in [P] the method [m] does not exhaust
    its loop budget, and when it returns the result and the state are
    in [Q]. *)
Definition runs {A : Type} (P : ServerConnection -> Prop) (m : M A)
    (Q : A -> ServerConnection -> Prop) : Prop :=
  forall server : ServerConnection,
    P server ->
    match m server with
    | Returned a server' => Q a server'
    | Panicked _ | Blocked _ => True
    | OutOfFuel => False
    end.

Definition keeps {A : Type} (n : nat) (m : M A) : Prop :=
  runs (within n) m (fun _ => within n).

(** [steps R m]: however the method [m] ends, the state it ends in is
    related by [R] to the state it started from. *)
Definition steps {A : Type}
    (R : ServerConnection -> ServerConnection -> Prop) (m : M A) : Prop :=
  forall server : ServerConnection,
    match m server with
    | Returned _ server' | Panicked server' | Blocked server' =>
        R server server'
    | OutOfFuel => True
    end.

(** What relaying a response may do to the connection: read results
    off the stream, send packets to the client and raise [finished];
    nothing is written to the server, no command is taken, and the
    flags [closed] and [sanitizing] stay as they are. *)
Definition relaysOnly (server server' : ServerConnection) : Prop :=
  written (stream server') = written (stream server)
  /\ ServerChannel (proxy server') = ServerChannel (proxy server)
  /\ closed (proxy server') = closed (proxy server)
  /\ sanitizing server' = sanitizing server
  /\ (exists sent,
        ClientChannel (proxy server') = ClientChannel (proxy server) ++ sent)
  /\ (exists consumed,
        incoming (stream server) = consumed ++ incoming (stream server'))
  /\ (finished server = true -> finished server' = true).

(** What the session as a whole may do: the two histories of sent
    packets grow at their end, the two queues are consumed from their
    front, [sanitizing] stays and [finished] is never lowered. *)
Definition extendsSession (server server' : ServerConnection) : Prop :=
  (exists sent,
     ClientChannel (proxy server') = ClientChannel (proxy server) ++ sent)
  /\ (exists wrote,
        written (stream server') = written (stream server) ++ wrote)
  /\ (exists consumed,
        incoming (stream server) = consumed ++ incoming (stream server'))
  /\ (exists taken,
        ServerChannel (proxy server) = taken ++ ServerChannel (proxy server'))
  /\ sanitizing server' = sanitizing server
  /\ (finished server = true -> finished server' = true).

(** A result of [NextPacket] without error. *)
Definition ok (packet : Packet) : Packet * option error := (packet, None).

(** The connection after a relay: the stream read down to [rest], the
    packets [sent] appended to the client channel. *)
Definition relayed (server : ServerConnection)
    (rest : list (Packet * option error)) (sent : list Packet)
  : ServerConnection :=
  mkServer (mkProxy (ServerChannel (proxy server))
                    (ClientChannel (proxy server) ++ sent)
                    (closed (proxy server)))
           (mkStream rest (written (stream server)))
           (sanitizing server) (finished server).

(** The connection after commands were taken: the client's queue down
    to [pending], the packets [wrote] written to the server. *)
Definition commanded (server : ServerConnection) (pending : list Packet)
    (wrote : list Packet) : ServerConnection :=
  mkServer (mkProxy pending (ClientChannel (proxy server))
                    (closed (proxy server)))
           (mkStream (incoming (stream server))
                     (written (stream server) ++ wrote))
           (sanitizing server) (finished server).

(** The connection with [finished] set. *)
Definition finish (server : ServerConnection) : ServerConnection :=
  mkServer (proxy server) (stream server) (sanitizing server) true.

(** Whether a stream starts with a read that fails: it is exhausted,
    or its first result carries an error. *)
Definition failsFirst (results : list (Packet * option error)) : Prop :=
  match results with
  | [] => True
  | (_, err) :: _ => err <> None
  end.

(** ** The permissions of the configuration file ([config.go]) *)

(** How a start-up check ends: it passes, or [log.Fatalf] ends the
    process with a message. *)
Inductive verdict : Type :=
| Passed
| Fatal (message : string).

(** [verifyConfigPermissions], over the result of [os.Stat]: [None] is
    a failed stat, [Some mode] the [uint32] [info.Mode()]. The test is
    [info.Mode()&0077 > 0]. *)
Definition verifyConfigPermissions (stat : option N) : verdict :=
  match stat with
  | None => Fatal "Can't stat the config file"
  | Some mode =>
      if (0 <? N.land mode 63)%N
      then Fatal "The config file has excessively permissive permissions!"
      else Passed
  end.

(** The command codes the specification lists as supported. *)
Definition supportedCodes : list byte :=
  [x01; x02; x03; x04; x09; x0c; x0e].

(** ** Scenarios

    Concrete collaborators and sessions at which the properties below
    are exercised. *)
Module Scenario.

(** A stand-in digest of the right size; the properties hold for every
    digest function, SHA-256 among them. *)
Definition constDigest (message : list byte) : Vector.t byte sha256_Size :=
  Vector.const x00 sha256_Size.

Definition salt : list byte := list_byte_of_string "pepper".

(** A policy under which only the column named id is safe. *)
Definition idIsSafe (column : Column) : bool := String.eqb (Name column) "id".

Definition greeting : Packet := mkPacket x00 (list_byte_of_string "greeting").
Definition login : Packet := mkPacket x01 (list_byte_of_string "login").

(** An OK packet: first byte 0x00, seven bytes. *)
Definition authOK : Packet := mkPacket x02 [x00; x00; x00; x02; x00; x00; x00].

(** An ERR packet, as a server answers a failed authentication. *)
Definition authERR : Packet :=
  mkPacket x02 (xff :: x15 :: x04 :: list_byte_of_string "#28000Access denied").

(** A command with the unsupported code 0x16. *)
Definition prepare : Packet := mkPacket x00 [x16; x31].

(** A session that starts with nothing sent: the server will deliver
    [results], the client side has queued [commands]. *)
Definition session (results : list (Packet * option error))
    (commands : list Packet) : ServerConnection :=
  mkServer (mkProxy commands [] false) (mkStream results []) false false.

(** A row of one NULL field, and a row whose only field announces five
    bytes and carries one. *)
Definition nullRow : Packet := mkPacket x04 [xfb].
Definition truncatedRow : Packet := mkPacket x04 [x05; x61].

Definition note : Column := mkColumn "note" 255 [xfd; x00; x00].

(** The head of a result set of one column: the column count, the
    definition of the column (read by [SpecCodec.ReadColumn] as
    [note]) and the EOF packet that ends the definitions. *)
Definition oneColumn : Packet := mkPacket x01 [x01].
Definition noteDefinition : Packet :=
  mkPacket x02
    ((x03 :: list_byte_of_string "def") ++ (x02 :: list_byte_of_string "db")
     ++ (x01 :: list_byte_of_string "t") ++ (x01 :: list_byte_of_string "t")
     ++ (x04 :: list_byte_of_string "note")
     ++ (x04 :: list_byte_of_string "note")
     ++ [x0c; x21; x00; xff; x00; x00; x00; xfd; x00; x00; x00; x00; x00]).
Definition endOfColumns : Packet := mkPacket x03 [xfe; x00; x00; x02; x00].

(** The result set of the query scenario: a column email that must be
    sanitized, declared 32 bytes wide, a safe column id, and the row
    ("alice@example.com", "7"). *)
Definition email : Column := mkColumn "email" 32 [xfd; x00; x00].
Definition idColumn : Column := mkColumn "id" 11 [x03; x00; x00].
Definition alice : list byte := list_byte_of_string "alice@example.com".
Definition aliceRow : Packet :=
  mkPacket x05 ((x11 :: alice) ++ [x01; x37]).

(** A PING, the OK packet that answers it, and a FIELD_LIST command,
    answered by a column definition and an EOF packet. *)
Definition ping : Packet := mkPacket x00 [x0e].
Definition pong : Packet := mkPacket x01 [x00; x00; x00; x02; x00; x00; x00].
Definition fieldList : Packet := mkPacket x00 (x04 :: list_byte_of_string "t").

(** A second unsupported command, with the code 0x17. *)
Definition execute : Packet := mkPacket x00 [x17; x01].

(** A row of the one-column result set with the value "abc", a row
    whose first field is empty and whose second is "hello", and a column
    definition cut short. *)
Definition noteRow : Packet := mkPacket x04 (x03 :: list_byte_of_string "abc").
Definition emptyFirstRow : Packet :=
  mkPacket x04 (x00 :: x05 :: list_byte_of_string "hello").

(** A read that fails: the zero packet and an error. *)
Definition failedRead : Packet * option error :=
  (zeroPacket, Some "connection reset by peer"%string).

End Scenario.

(** ** The handler, over its collaborators *)

Section Relay.

(** [sha256.Sum256], whose result is a [[32]byte] array. *)
Variable Sum256 : list byte -> Vector.t byte sha256_Size.

(** [config.HashSaltBytes], the process-wide salt. *)
Variable HashSaltBytes : list byte.

(** [Column.IsSafe], the sanitization policy. *)
Variable IsSafe : Column -> bool.

(** The packet parser and the encoders of this repository that the
    handler calls; [None] is a panic inside the call. *)
Variable PacketParser : Type.
Variable NewPacketParser : Packet -> PacketParser.
Variable ReadEncodedInt : PacketParser -> option (N * PacketParser).
Variable ReadStringOrNull : PacketParser -> option (list byte * bool * PacketParser).
Variable ReadColumn : PacketParser -> option (Column * option error).
Variable LengthEncodedInt : N -> list byte.
Variable ErrorPacket : byte -> N -> string -> string -> byte -> Packet.

(** *** Sanitization and row reconstruction *)

Definition sanitizeRow (row : list byte) (column : Column) : list byte :=
  let sum := Sum256 (row ++ HashSaltBytes) in
  let newRow := hexEncode (Vector.to_list sum) in
  if (Length column <? uint32 (len newRow))%N
  then firstn (N.to_nat (Length column)) newRow
  else newRow.

(** The loop of [readRowValues]: [rows] is the slice appended to. *)
Fixpoint readRowLoop (parser : PacketParser) (columns : list Column)
    (rows : list rowValue) : option (list rowValue) :=
  match columns with
  | [] => Some rows
  | col :: columns' =>
      obind (ReadStringOrNull parser) (fun '(value, nonNull, parser') =>
      if nonNull then
        let rowVal := value in
        let rowVal := if negb (IsSafe col) then sanitizeRow rowVal col else rowVal in
        readRowLoop parser' columns' (rows ++ [Some rowVal])
      else
        readRowLoop parser' columns' (rows ++ [None]))
  end.

Definition readRowValues (packet : Packet) (columns : list Column)
  : option (list rowValue * option error) :=
  let parser := NewPacketParser packet in
  obind (readRowLoop parser columns []) (fun rows => Some (rows, None)).

Definition constructNewResponse (originalPacket : Packet) (rows : list rowValue)
  : Packet :=
  mkPacket (SequenceID originalPacket)
    (fold_left
       (fun payload row =>
          payload ++ (LengthEncodedInt (rowLen row) ++ rowBytes row))
       rows []).

(** *** The row transform as the specification words it

    One field per column, in catalog order; a null field stays null, a
    field of a safe column keeps its bytes, any other field is replaced
    by its sanitized value. [readRowValues] is compared with this. *)
Fixpoint decodeFields (parser : PacketParser) (count : nat)
  : option (list (list byte * bool)) :=
  match count with
  | O => Some []
  | S count' =>
      obind (ReadStringOrNull parser) (fun '(value, nonNull, parser') =>
      option_map (cons (value, nonNull)) (decodeFields parser' count'))
  end.

Definition relayField (column : Column) (field : list byte * bool) : rowValue :=
  let (value, nonNull) := field in
  if nonNull then
    if IsSafe column then Some value else Some (sanitizeRow value column)
  else None.

Definition relayRow (columns : list Column) (fields : list (list byte * bool))
  : list rowValue :=
  map (fun '(column, field) => relayField column field) (combine columns fields).

(** A null row value turned into the empty, non-null one. *)
Definition nullToEmpty (row : rowValue) : rowValue := Some (rowBytes row).


(** A decoded field as a row value when nothing is sanitized: its
    bytes, or nil for NULL. *)
Definition plainField (field : list byte * bool) : rowValue :=
  let (value, nonNull) := field in
  if nonNull then Some value else None.

(** *** Handshake *)

(** [fmt.Sprintf("\x03SET max_statement_time = %d", seconds*1000)] *)
Definition timeoutQuery (seconds : N) : list byte :=
  x03 :: list_byte_of_string
           ("SET max_statement_time = "
              ++ DecimalString.NilEmpty.string_of_uint (N.to_uint (seconds * 1000))).

Definition setStatementTimeout (seconds : N) : M (option error) :=
  let setCommand := mkPacket x00 (timeoutQuery seconds) in
  WritePacket setCommand ;;
  '(response, err) <- NextPacket ;;
  isErr <- lift (packetIsERR response) ;;
  if isErr then ret (Some "Got error from max_statement_time!"%string)
  else ret err.

Definition doHandshake : M unit :=
  '(welcomePacket, err) <- NextPacket ;;
  match err with
  | Some _ => setFinished
  | None =>
      sendClient welcomePacket ;;
      clientHandshake <- recvServer ;;
      WritePacket clientHandshake ;;
      '(response, err) <- NextPacket ;;
      match err with
      | Some _ => setFinished
      | None =>
          ok <- lift (packetIsOK response) ;;
          if negb ok then setFinished
          else
            err <- setStatementTimeout 20 ;;
            match err with
            | Some _ => setFinished
            | None => sendClient response
            end
      end
  end.

(** *** Responses *)

Fixpoint handleOtherResponse (fuel : nat) : M unit :=
  match fuel with
  | O => outOfFuel
  | S fuel' =>
      '(response, err) <- NextPacket ;;
      match err with
      | Some _ => setFinished
      | None =>
          sendClient response ;;
          terminal <- lift (isTerminal response) ;;
          if terminal then ret tt else handleOtherResponse fuel'
      end
  end.

(** The loop of [readColumnDefinitions], [count] iterations left. *)
Fixpoint readColumnLoop (count : nat) (columns : list Column)
  : M (list Column * option error) :=
  match count with
  | O => ret (columns, None)
  | S count' =>
      '(packet, err) <- NextPacket ;;
      match err with
      | Some e => ret ([], Some e)
      | None =>
          let parser := NewPacketParser packet in
          sendClient packet ;;
          '(column, err) <- lift (ReadColumn parser) ;;
          match err with
          | Some e => ret ([], Some e)
          | None => readColumnLoop count' (columns ++ [column])
          end
      end
  end.

(** [make([]Column, columnCount)] panics when the count does not fit
    a Go [int]; running out of memory below that is not modelled. *)
Definition readColumnDefinitions (packet : Packet)
  : M (list Column * option error) :=
  let parser := NewPacketParser packet in
  '(columnCount, _) <- lift (ReadEncodedInt parser) ;;
  (if (2 ^ 63 <=? columnCount)%N then lift None else ret tt) ;;
  sendClient packet ;;
  readColumnLoop (N.to_nat columnCount) [].

(** The row loop of [handleQueryResponse]. *)
Fixpoint rowLoop (fuel : nat) (columns : list Column) : M unit :=
  match fuel with
  | O => outOfFuel
  | S fuel' =>
      '(rowPacket, err) <- NextPacket ;;
      match err with
      | Some _ => setFinished
      | None =>
          terminal <- lift (isTerminal rowPacket) ;;
          if terminal then sendClient rowPacket
          else
            '(rows, err) <- lift (readRowValues rowPacket columns) ;;
            match err with
            | Some _ => setFinished
            | None =>
                sendClient (constructNewResponse rowPacket rows) ;;
                rowLoop fuel' columns
            end
      end
  end.

(** Every path through the body of the outer [for] of
    [handleQueryResponse] leaves it, by [break] or by [return], so the
    body runs once. *)
Definition handleQueryResponse (fuel : nat) : M unit :=
  '(response, err) <- NextPacket ;;
  match err with
  | Some _ => setFinished
  | None =>
      terminal <- lift (isTerminal response) ;;
      if terminal then sendClient response
      else
        '(columns, err) <- readColumnDefinitions response ;;
        match err with
        | Some _ => setFinished
        | None =>
            '(eofPacket, err) <- NextPacket ;;
            match err with
            | Some _ => setFinished
            | None =>
                sendClient eofPacket ;;
                rowLoop fuel columns
            end
        end
  end.

(** *** The command loop *)

Definition unsupportedFormat : string :=
  "mysql-sanitizer doesn't support this command: 0x%02x".

(** One pass through the body of the [for !server.finished] loop. *)
Definition commandStep (fuel : nat) : M unit :=
  packet <- recvServer ;;
  supported <- lift (supportedCommand packet) ;;
  if supported then
    WritePacket packet ;;
    cmd <- lift (packetCommand packet) ;;
    if Byte.eqb cmd COM_QUERY then handleQueryResponse fuel
    else handleOtherResponse fuel
  else
    cmd <- lift (packetCommand packet) ;;
    let errPacket :=
      ErrorPacket (SequenceID packet) 1002 "HY000" unsupportedFormat cmd in
    sendClient errPacket.

Fixpoint commandLoop (fuel : nat) : M unit :=
  fun server =>
    if finished server then Returned tt server
    else
      match fuel with
      | O => OutOfFuel
      | S fuel' => (commandStep fuel' ;; commandLoop fuel') server
      end.

(** [Run]: the deferred [server.proxy.Close()] runs when the body
    returns and when it panics. *)
Definition Run (fuel : nat) : M unit :=
  fun server =>
    match (doHandshake ;; commandLoop fuel) server with
    | Returned a server' => Returned a (closeProxy server')
    | Panicked server' => Panicked (closeProxy server')
    | Blocked server' => Blocked server'
    | OutOfFuel => OutOfFuel
    end.

(** ** Properties of the sanitizer and of row reconstruction *)

Lemma hexEncode_length (src : list byte) :
  List.length (hexEncode src) = 2 * List.length src.
Proof.
  induction src as [|v rest IH]; simpl; [reflexivity|].
  rewrite IH. lia.
Qed.

Lemma hexDigit_in_table (n : N) : (n < 16)%N -> In (hexDigit n) hextable.
Proof.
  intros Hn. unfold hexDigit. apply nth_In.
  change (List.length hextable) with 16. lia.
Qed.

(** The encoder emits nothing but the sixteen lowercase digits. *)
Lemma hexEncode_lowercase (src : list byte) :
  Forall (fun b => In b hextable) (hexEncode src).
Proof.
  induction src as [|v rest IH]; [constructor|].
  cbn [hexEncode]. constructor; [|constructor; [|exact IH]].
  - apply hexDigit_in_table. rewrite N.shiftr_div_pow2.
    apply N.Div0.div_lt_upper_bound. pose proof (Byte.to_N_bounded v). simpl. lia.
  - apply hexDigit_in_table. change 15%N with (N.ones 4).
    rewrite N.land_ones. apply N.mod_lt. discriminate.
Qed.

Lemma digest_hex_length (message : list byte) :
  List.length (hexEncode (Vector.to_list (Sum256 message))) = 64.
Proof.
  rewrite hexEncode_length, Vector.length_to_list. reflexivity.
Qed.

(** C1: [sanitizeRow] is the lowercase hexadecimal encoding of the
    SHA-256 digest of the value followed by the salt, cut to its first
    min(64, column length) bytes; its length is exactly that minimum. *)
Theorem sanitizeRow_truncated_hex (row : list byte) (column : Column) :
  sanitizeRow row column
    = firstn (N.to_nat (N.min 64 (Length column)))
             (hexEncode (Vector.to_list (Sum256 (row ++ HashSaltBytes))))
  /\ len (sanitizeRow row column) = N.min 64 (Length column).
Proof.
  unfold sanitizeRow, len, uint32.
  pose proof (digest_hex_length (row ++ HashSaltBytes)) as Hlen.
  rewrite Hlen. change (N.of_nat 64 mod 2 ^ 32)%N with 64%N.
  destruct (N.ltb_spec (Length column) 64) as [Hlt|Hge].
  - rewrite N.min_r by lia. split; [reflexivity|].
    rewrite length_firstn, Hlen. lia.
  - rewrite N.min_l by lia. split.
    + symmetry. apply firstn_all2. rewrite Hlen. reflexivity.
    + rewrite Hlen. reflexivity.
Qed.

(** C9: the rebuilt packet carries the sequence id of the original. *)
Theorem constructNewResponse_SequenceID (originalPacket : Packet)
    (rows : list rowValue) :
  SequenceID (constructNewResponse originalPacket rows)
    = SequenceID originalPacket.
Proof. reflexivity. Qed.

(** C8: on a non-empty payload the three classifiers are all defined
    and at most one of them holds. *)
Theorem classification_exclusive (packet : Packet) :
  Payload packet <> [] ->
  exists ok err eof : bool,
    packetIsOK packet = Some ok
    /\ packetIsERR packet = Some err
    /\ packetIsEOF packet = Some eof
    /\ ok && err = false /\ ok && eof = false /\ err && eof = false.
Proof.
  intros Hne. destruct packet as [seq [|b rest]]; [contradiction|].
  unfold packetIsOK, packetIsERR, packetIsEOF, payload0; simpl.
  do 3 eexists. repeat split.
  - destruct (Byte.eqb b x00) eqn:E0; [|reflexivity].
    apply Byte.byte_dec_bl in E0. subst b. apply andb_false_r.
  - destruct (Byte.eqb b x00) eqn:E0; [|reflexivity].
    apply Byte.byte_dec_bl in E0. subst b. apply andb_false_r.
  - destruct (Byte.eqb b xff) eqn:E0; [|reflexivity].
    apply Byte.byte_dec_bl in E0. subst b. reflexivity.
Qed.

Lemma decodeFields_length (parser : PacketParser) (count : nat)
    (fields : list (list byte * bool)) :
  decodeFields parser count = Some fields -> List.length fields = count.
Proof.
  revert parser fields.
  induction count as [|count IH]; intros parser fields; simpl.
  - intros [= <-]. reflexivity.
  - destruct (ReadStringOrNull parser) as [[[value nonNull] parser']|]; simpl;
      [|discriminate].
    destruct (decodeFields parser' count) as [fs|] eqn:E; simpl; [|discriminate].
    intros [= <-]. simpl. f_equal. exact (IH _ _ E).
Qed.

(** The loop of [readRowValues] appends the transformed fields to what
    it was given. *)
Lemma readRowLoop_relayRow (columns : list Column) :
  forall (parser : PacketParser) (rows : list rowValue),
    readRowLoop parser columns rows
      = option_map (fun fields => rows ++ relayRow columns fields)
                   (decodeFields parser (List.length columns)).
Proof.
  induction columns as [|col columns IH]; intros parser rows; simpl.
  - rewrite app_nil_r. reflexivity.
  - destruct (ReadStringOrNull parser) as [[[value nonNull] parser']|]; simpl;
      [|reflexivity].
    destruct nonNull.
    + rewrite IH. destruct (decodeFields parser' (List.length columns)); simpl;
        [|reflexivity].
      unfold relayRow; simpl. rewrite <- app_assoc.
      destruct (IsSafe col); reflexivity.
    + rewrite IH. destruct (decodeFields parser' (List.length columns)); simpl;
        [|reflexivity].
      unfold relayRow; simpl. rewrite <- app_assoc. reflexivity.
Qed.

(** C2: [readRowValues] decodes one field per column, in catalog order,
    and returns at each position the decoded bytes when the field is
    null or its column is safe, and the sanitized value otherwise; it
    panics exactly when the decoding of some field does. *)
Theorem readRowValues_per_column (packet : Packet) (columns : list Column) :
  readRowValues packet columns
    = option_map (fun fields => (relayRow columns fields, None))
                 (decodeFields (NewPacketParser packet) (List.length columns))
  /\ option_map (@List.length _)
                (decodeFields (NewPacketParser packet) (List.length columns))
     = option_map (fun _ => List.length columns)
                  (decodeFields (NewPacketParser packet) (List.length columns)).
Proof.
  split.
  - unfold readRowValues. rewrite readRowLoop_relayRow.
    destruct (decodeFields _ _); reflexivity.
  - destruct (decodeFields _ _) as [fields|] eqn:E; simpl; [|reflexivity].
    f_equal. exact (decodeFields_length _ _ E).
Qed.

(** What [readRowValues] returns at a position, read off [relayRow]. *)
Lemma relayRow_nth (columns : list Column) (fields : list (list byte * bool))
    (i : nat) (column : Column) (field : list byte * bool) :
  nth_error columns i = Some column ->
  nth_error fields i = Some field ->
  nth_error (relayRow columns fields) i = Some (relayField column field).
Proof.
  revert fields i. induction columns as [|c columns IH]; intros fields i.
  - destruct i; discriminate.
  - destruct fields as [|f fields]; [destruct i; discriminate|].
    destruct i as [|i]; simpl.
    + intros [= ->] [= ->]. reflexivity.
    + apply IH.
Qed.

(** [readRowValues] has no path that returns an error. *)
Lemma readRowValues_error_nil (packet : Packet) (columns : list Column)
    (rows : list rowValue) (err : option error) :
  readRowValues packet columns = Some (rows, err) -> err = None.
Proof.
  unfold readRowValues.
  destruct (readRowLoop _ _ _); simpl; [|discriminate].
  intros [= _ <-]. reflexivity.
Qed.

(** C7: whatever the row packet and the columns, a truncated row
    included, [readRowValues] never returns a non-nil error, so the
    branch of the row loop that would set [finished] is never taken. *)
Theorem readRowValues_never_reports (packet : Packet) (columns : list Column)
    (rows : list rowValue) (e : error) :
  readRowValues packet columns <> Some (rows, Some e).
Proof.
  intros H. apply readRowValues_error_nil in H. discriminate.
Qed.

(** Row reconstruction does not tell a null field from an empty one:
    both have length zero and no bytes. *)
Lemma constructNewResponse_null_as_empty (originalPacket : Packet)
    (rows : list rowValue) :
  constructNewResponse originalPacket (map nullToEmpty rows)
    = constructNewResponse originalPacket rows.
Proof.
  unfold constructNewResponse. f_equal.
  generalize (@nil byte) as payload.
  induction rows as [|row rows IH]; intros payload; simpl; [reflexivity|].
  rewrite IH. destruct row; reflexivity.
Qed.

(** ** Properties of the command loop and of the handshake *)

Lemma supportedCommand_unsupported (packet : Packet) (cmd : byte) :
  packetCommand packet = Some cmd ->
  ~ In cmd supportedCodes ->
  supportedCommand packet = Some false.
Proof.
  intros Hcmd Hnot. unfold supportedCommand. rewrite Hcmd. simpl.
  unfold COM_QUIT, COM_INIT_DB, COM_QUERY, COM_FIELD_LIST, COM_STATISTICS,
    COM_PROCESS_KILL, COM_PING.
  repeat match goal with
  | |- context [Byte.eqb cmd ?c] =>
      let E := fresh "E" in
      destruct (Byte.eqb cmd c) eqn:E;
      [apply Byte.byte_dec_bl in E; subst cmd; exfalso; apply Hnot;
       unfold supportedCodes; simpl; tauto|]
  end.
  reflexivity.
Qed.

(** C4: a command whose code is not supported is answered with the
    synthesized error packet on the client channel; nothing is written
    to the server, [finished] stays false and the loop goes on. *)
Theorem unsupported_command_rejected (fuel : nat) (server : ServerConnection)
    (packet : Packet) (pending : list Packet) (cmd : byte) :
  finished server = false ->
  ServerChannel (proxy server) = packet :: pending ->
  packetCommand packet = Some cmd ->
  ~ In cmd supportedCodes ->
  let errPacket :=
    ErrorPacket (SequenceID packet) 1002 "HY000" unsupportedFormat cmd in
  let server' :=
    mkServer (mkProxy pending (ClientChannel (proxy server) ++ [errPacket])
                      (closed (proxy server)))
             (stream server) (sanitizing server) false in
  commandStep fuel server = Returned tt server'
  /\ commandLoop (S fuel) server = commandLoop fuel server'.
Proof.
  intros Hfin Hchan Hcmd Hnot errPacket server'.
  pose proof (supportedCommand_unsupported _ Hcmd Hnot) as Hsup.
  assert (Hstep : commandStep fuel server = Returned tt server').
  { unfold commandStep, bind, recvServer, lift, sendClient.
    rewrite Hchan, Hsup, Hcmd. simpl. rewrite Hfin. reflexivity. }
  split; [exact Hstep|].
  simpl. rewrite Hfin. unfold bind at 1. rewrite Hstep. reflexivity.
Qed.

(** Whatever the error beside it, a packet without payload read after
    the timeout command makes [setStatementTimeout] panic: it is
    classified before the error is looked at. *)
Lemma setStatementTimeout_empty_payload (seconds : N)
    (server : ServerConnection) (response : Packet) (err : option error)
    (results : list (Packet * option error)) :
  incoming (stream server) = (response, err) :: results ->
  Payload response = [] ->
  exists server', setStatementTimeout seconds server = Panicked server'.
Proof.
  intros Hin Hempty.
  unfold setStatementTimeout, bind, WritePacket, NextPacket. simpl.
  rewrite Hin. unfold packetIsERR, payload0. rewrite Hempty. simpl.
  eexists. reflexivity.
Qed.

(** C5, as the code has it: when the auth result is not an OK packet
    the handler forwards nothing more, so the greeting is the last
    packet the client receives; it sets [finished], never enters the
    command loop and closes the session. *)
Theorem auth_failure_terminates (fuel : nat) (server : ServerConnection)
    (welcomePacket clientHandshake response : Packet)
    (results : list (Packet * option error)) (pending : list Packet) :
  incoming (stream server)
    = (welcomePacket, None) :: (response, None) :: results ->
  ServerChannel (proxy server) = clientHandshake :: pending ->
  packetIsOK response = Some false ->
  Run fuel server
    = Returned tt
        (mkServer
           (mkProxy pending (ClientChannel (proxy server) ++ [welcomePacket]) true)
           (mkStream results (written (stream server) ++ [clientHandshake]))
           (sanitizing server) true).
Proof.
  intros Hin Hchan Hok.
  unfold Run, bind, doHandshake, bind, NextPacket.
  rewrite Hin. simpl. rewrite Hchan. simpl. rewrite Hok. simpl.
  destruct fuel; reflexivity.
Qed.

(** ** The loop budget suffices

    A budget of iterations above what the session can still consume is
    never exhausted: the loops end by themselves. *)

Lemma runs_bind {A B : Type} (P : ServerConnection -> Prop) (m : M A)
    (Q : A -> ServerConnection -> Prop) (k : A -> M B)
    (R : B -> ServerConnection -> Prop) :
  runs P m Q -> (forall a, runs (Q a) (k a) R) -> runs P (bind m k) R.
Proof.
  intros Hm Hk server HP. unfold bind. specialize (Hm server HP).
  destruct (m server) as [a server'| | |]; try exact Hm.
  exact (Hk a server' Hm).
Qed.

Lemma runs_weaken {A : Type} (P P' : ServerConnection -> Prop) (m : M A)
    (Q Q' : A -> ServerConnection -> Prop) :
  runs P m Q ->
  (forall server, P' server -> P server) ->
  (forall a server, Q a server -> Q' a server) ->
  runs P' m Q'.
Proof.
  intros Hm HP HQ server HP'. specialize (Hm server (HP _ HP')).
  destruct (m server); auto.
Qed.

Lemma keeps_bind {A B : Type} (n : nat) (m : M A) (k : A -> M B) :
  keeps n m -> (forall a, keeps n (k a)) -> keeps n (bind m k).
Proof. intros Hm Hk. unfold keeps. eapply runs_bind; [exact Hm | exact Hk]. Qed.

Lemma keeps_ret {A : Type} (n : nat) (a : A) : keeps n (ret a).
Proof. intros server H. exact H. Qed.

Lemma keeps_lift {A : Type} (n : nat) (o : option A) : keeps n (lift o).
Proof. intros server H. destruct o; simpl; auto. Qed.

Lemma keeps_WritePacket (n : nat) (packet : Packet) :
  keeps n (WritePacket packet).
Proof. intros server H. exact H. Qed.

Lemma keeps_sendClient (n : nat) (packet : Packet) :
  keeps n (sendClient packet).
Proof. intros server H. exact H. Qed.

Lemma keeps_setFinished (n : nat) : keeps n setFinished.
Proof. intros server H. exact H. Qed.

(** A read that succeeds has taken a result off the stream. *)
Lemma runs_NextPacket (n : nat) :
  runs (within n) NextPacket
       (fun result server' =>
          within n server' /\ (snd result = None -> budget server' < n)).
Proof.
  intros server H. unfold NextPacket. unfold within, budget in H.
  destruct (incoming (stream server)) as [|result rest] eqn:E;
    unfold within, budget; simpl; rewrite ?E; simpl; simpl in H.
  - split; [lia | discriminate].
  - split; intros; lia.
Qed.

Lemma keeps_NextPacket (n : nat) : keeps n NextPacket.
Proof.
  eapply runs_weaken;
    [apply runs_NextPacket | intros s Hs; exact Hs | intros a s [H _]; exact H].
Qed.

(** A receive that returns has taken a packet off the channel. *)
Lemma runs_recvServer (n : nat) :
  runs (within n) recvServer (fun _ server' => budget server' < n).
Proof.
  intros server H. unfold recvServer. unfold within, budget in H.
  destruct (ServerChannel (proxy server)) as [|packet rest] eqn:E;
    unfold budget; simpl; [exact I|].
  simpl in H. lia.
Qed.

Lemma keeps_recvServer (n : nat) : keeps n recvServer.
Proof.
  eapply runs_weaken; [apply runs_recvServer | intros s Hs; exact Hs |].
  intros a server H. cbv beta in H. unfold within. lia.
Qed.

Create HintDb budget.
#[local] Hint Resolve keeps_ret keeps_lift keeps_WritePacket keeps_sendClient
  keeps_setFinished keeps_NextPacket keeps_recvServer : budget.

Ltac keeps_step :=
  match goal with
  | |- keeps _ (bind _ _) => apply keeps_bind; [|intros]
  | |- keeps _ (match ?x with _ => _ end) => destruct x
  | |- keeps _ _ => solve [auto with budget]
  end.

(** After a successful read the rest of a pass runs on a budget
    smaller by one. *)
Lemma after_read {A : Type} (n : nat) (packet : Packet) (m : M A) :
  (forall n', S n' = n -> keeps n' m) ->
  runs (fun server' =>
          within n server'
          /\ (snd (packet, @None error) = None -> budget server' < n))
       m (fun _ => within n).
Proof.
  intros Hm server [_ Hlt]. specialize (Hlt eq_refl).
  destruct n as [|n']; [lia|].
  assert (Hin : within n' server) by (unfold within; lia).
  specialize (Hm n' eq_refl server Hin).
  destruct (m server); auto. unfold within in *. lia.
Qed.

Lemma keeps_setStatementTimeout (n : nat) (seconds : N) :
  keeps n (setStatementTimeout seconds).
Proof. unfold setStatementTimeout. repeat keeps_step. Qed.

Lemma keeps_doHandshake (n : nat) : keeps n doHandshake.
Proof.
  unfold doHandshake. repeat keeps_step. apply keeps_setStatementTimeout.
Qed.

Lemma keeps_handleOtherResponse (fuel : nat) :
  forall n, n < fuel -> keeps n (handleOtherResponse fuel).
Proof.
  induction fuel as [|fuel IH]; intros n Hn; [lia|]. simpl.
  eapply runs_bind; [apply runs_NextPacket|]. intros [response [e|]].
  - eapply runs_weaken;
      [apply keeps_setFinished | intros s [H _]; exact H | auto].
  - apply after_read. intros n' Hn'. repeat keeps_step. apply IH. lia.
Qed.

Lemma keeps_readColumnLoop (n count : nat) :
  forall columns, keeps n (readColumnLoop count columns).
Proof.
  induction count as [|count IH]; intros columns; simpl; repeat keeps_step.
Qed.

Lemma keeps_readColumnDefinitions (n : nat) (packet : Packet) :
  keeps n (readColumnDefinitions packet).
Proof.
  unfold readColumnDefinitions. repeat keeps_step.
  apply keeps_readColumnLoop.
Qed.

Lemma keeps_rowLoop (fuel : nat) (columns : list Column) :
  forall n, n < fuel -> keeps n (rowLoop fuel columns).
Proof.
  induction fuel as [|fuel IH]; intros n Hn; [lia|]. simpl.
  eapply runs_bind; [apply runs_NextPacket|]. intros [rowPacket [e|]].
  - eapply runs_weaken;
      [apply keeps_setFinished | intros s [H _]; exact H | auto].
  - apply after_read. intros n' Hn'. repeat keeps_step. apply IH. lia.
Qed.

Lemma keeps_handleQueryResponse (fuel n : nat) :
  n < fuel -> keeps n (handleQueryResponse fuel).
Proof.
  intros Hn. unfold handleQueryResponse. repeat keeps_step.
  - apply keeps_readColumnDefinitions.
  - apply keeps_rowLoop. exact Hn.
Qed.

(** A pass of the command loop that returns has used up part of what
    was left. *)
Lemma runs_commandStep (fuel n : nat) :
  n <= fuel ->
  runs (within n) (commandStep fuel) (fun _ server' => budget server' < n).
Proof.
  intros Hn. unfold commandStep.
  eapply runs_bind; [apply runs_recvServer|]. intros packet.
  destruct n as [|n']; [intros server H; lia|].
  apply (@runs_weaken _ (within n') _ _ (fun _ => within n'));
    [| unfold within; intros; lia | unfold within; intros; lia].
  change (keeps n' (supported <- lift (supportedCommand packet) ;;
                    if supported
                    then WritePacket packet ;;
                         cmd <- lift (packetCommand packet) ;;
                         if Byte.eqb cmd COM_QUERY
                         then handleQueryResponse fuel
                         else handleOtherResponse fuel
                    else cmd <- lift (packetCommand packet) ;;
                         sendClient
                           (ErrorPacket (SequenceID packet) 1002 "HY000"
                              unsupportedFormat cmd))).
  repeat keeps_step.
  - apply keeps_handleQueryResponse. lia.
  - apply keeps_handleOtherResponse. lia.
Qed.

Lemma runs_commandLoop (fuel : nat) :
  forall n, n < fuel -> runs (within n) (commandLoop fuel) (fun _ _ => True).
Proof.
  induction fuel as [|fuel IH]; intros n Hn; [lia|].
  intros server Hin. simpl. destruct (finished server); [exact I|].
  assert (Hstep : runs (within n) (commandStep fuel)
                       (fun _ server' => budget server' < n))
    by (apply runs_commandStep; lia).
  refine (@runs_bind _ _ _ _ _ _ _ Hstep _ server Hin).
  intros u server' Hlt. cbv beta in Hlt.
  apply (IH (budget server')); [lia | unfold within; lia].
Qed.

(** With a budget above what the session holds, [Run] ends by
    returning, by a panic or blocked on the client's channel, never for
    want of budget. *)
Lemma Run_enough_fuel (fuel : nat) (server : ServerConnection) :
  budget server < fuel -> Run fuel server <> OutOfFuel.
Proof.
  intros Hfuel. unfold Run.
  assert (H : runs (within (budget server))
                   (doHandshake ;; commandLoop fuel) (fun _ _ => True)).
  { eapply runs_bind; [apply (@keeps_doHandshake (budget server))|].
    intros u. apply runs_commandLoop. exact Hfuel. }
  specialize (H server (le_n _)).
  destruct (bind doHandshake (fun _ => commandLoop fuel) server);
    [discriminate | discriminate | discriminate | contradiction].
Qed.

(** ** The sanitizing flag is never read *)

Lemma oblivious_ret {A : Type} (a : A) : oblivious (ret a).
Proof. intros active server. reflexivity. Qed.

Lemma oblivious_bind {A B : Type} (m : M A) (k : A -> M B) :
  oblivious m -> (forall a, oblivious (k a)) -> oblivious (bind m k).
Proof.
  intros Hm Hk active server. unfold bind. rewrite Hm.
  destruct (m server) as [a server'| | |]; simpl; try reflexivity.
  apply Hk.
Qed.

Lemma oblivious_lift {A : Type} (o : option A) : oblivious (lift o).
Proof. intros active server. destruct o; reflexivity. Qed.

Lemma oblivious_outOfFuel {A : Type} : oblivious (@outOfFuel A).
Proof. intros active server. reflexivity. Qed.

Lemma oblivious_NextPacket : oblivious NextPacket.
Proof.
  intros active server. unfold NextPacket. simpl.
  destruct (incoming (stream server)); reflexivity.
Qed.

Lemma oblivious_WritePacket (packet : Packet) : oblivious (WritePacket packet).
Proof. intros active server. reflexivity. Qed.

Lemma oblivious_sendClient (packet : Packet) : oblivious (sendClient packet).
Proof. intros active server. reflexivity. Qed.

Lemma oblivious_recvServer : oblivious recvServer.
Proof.
  intros active server. unfold recvServer. simpl.
  destruct (ServerChannel (proxy server)); reflexivity.
Qed.

Lemma oblivious_setFinished : oblivious setFinished.
Proof. intros active server. reflexivity. Qed.

Create HintDb oblivious.
#[local] Hint Resolve oblivious_ret oblivious_lift oblivious_outOfFuel
  oblivious_NextPacket oblivious_WritePacket oblivious_sendClient
  oblivious_recvServer oblivious_setFinished : oblivious.

(** Splits a method along its binds and case distinctions, leaving the
    calls that the hints do not know. *)
Ltac oblivious_step :=
  match goal with
  | |- oblivious (bind _ _) => apply oblivious_bind; [|intros]
  | |- oblivious (match ?x with _ => _ end) => destruct x
  | |- oblivious _ => solve [auto with oblivious]
  end.

Lemma oblivious_setStatementTimeout (seconds : N) :
  oblivious (setStatementTimeout seconds).
Proof. unfold setStatementTimeout. repeat oblivious_step. Qed.

Lemma oblivious_doHandshake : oblivious doHandshake.
Proof.
  unfold doHandshake. repeat oblivious_step.
  apply oblivious_setStatementTimeout.
Qed.

Lemma oblivious_handleOtherResponse (fuel : nat) :
  oblivious (handleOtherResponse fuel).
Proof.
  induction fuel as [|fuel IH]; simpl; repeat oblivious_step.
Qed.

Lemma oblivious_readColumnLoop (count : nat) :
  forall columns, oblivious (readColumnLoop count columns).
Proof.
  induction count as [|count IH]; intros columns; simpl; repeat oblivious_step.
Qed.

Lemma oblivious_readColumnDefinitions (packet : Packet) :
  oblivious (readColumnDefinitions packet).
Proof.
  unfold readColumnDefinitions. repeat oblivious_step.
  apply oblivious_readColumnLoop.
Qed.

Lemma oblivious_rowLoop (fuel : nat) (columns : list Column) :
  oblivious (rowLoop fuel columns).
Proof.
  induction fuel as [|fuel IH]; simpl; repeat oblivious_step.
Qed.

Lemma oblivious_handleQueryResponse (fuel : nat) :
  oblivious (handleQueryResponse fuel).
Proof.
  unfold handleQueryResponse. repeat oblivious_step.
  - apply oblivious_readColumnDefinitions.
  - apply oblivious_rowLoop.
Qed.

Lemma oblivious_commandStep (fuel : nat) : oblivious (commandStep fuel).
Proof.
  unfold commandStep. repeat oblivious_step.
  - apply oblivious_handleQueryResponse.
  - apply oblivious_handleOtherResponse.
Qed.

Lemma oblivious_commandLoop (fuel : nat) : oblivious (commandLoop fuel).
Proof.
  induction fuel as [|fuel IH]; intros active server; simpl.
  - destruct (finished server); reflexivity.
  - destruct (finished server); [reflexivity|].
    exact (@oblivious_bind _ _ (commandStep fuel) (fun _ => commandLoop fuel)
             (oblivious_commandStep fuel) (fun _ => IH) active server).
Qed.

Lemma oblivious_Run (fuel : nat) : oblivious (Run fuel).
Proof.
  intros active server. unfold Run.
  rewrite (@oblivious_bind _ _ doHandshake (fun _ => commandLoop fuel)
             oblivious_doHandshake (fun _ => oblivious_commandLoop fuel)).
  destruct (bind doHandshake (fun _ => commandLoop fuel) server); reflexivity.
Qed.

Lemma traffic_oblivious {A : Type} (m : M A) :
  oblivious m ->
  forall active server,
    traffic (m (ToggleSanitizing active server)) = traffic (m server).
Proof.
  intros Hm active server. rewrite Hm.
  destruct (m server); reflexivity.
Qed.

(** C10: no method of the connection reads the sanitizing flag: run
    from two states that differ in that flag only, [Run],
    [doHandshake], [handleQueryResponse] and [handleOtherResponse] end
    the same way, with the same packets on the client channel and on
    the server stream, and the flag is all that differs afterwards.
    [readRowValues] is not given the connection at all. *)
Theorem sanitizing_flag_never_read (active : bool) (fuel : nat)
    (server : ServerConnection) :
  (Run fuel (ToggleSanitizing active server)
     = onServer (ToggleSanitizing active) (Run fuel server)
   /\ doHandshake (ToggleSanitizing active server)
     = onServer (ToggleSanitizing active) (doHandshake server)
   /\ handleQueryResponse fuel (ToggleSanitizing active server)
     = onServer (ToggleSanitizing active) (handleQueryResponse fuel server)
   /\ handleOtherResponse fuel (ToggleSanitizing active server)
     = onServer (ToggleSanitizing active) (handleOtherResponse fuel server))
  /\ traffic (Run fuel (ToggleSanitizing active server))
     = traffic (Run fuel server)
  /\ traffic (doHandshake (ToggleSanitizing active server))
     = traffic (doHandshake server)
  /\ traffic (handleQueryResponse fuel (ToggleSanitizing active server))
     = traffic (handleQueryResponse fuel server)
  /\ traffic (handleOtherResponse fuel (ToggleSanitizing active server))
     = traffic (handleOtherResponse fuel server).
Proof.
  repeat split;
    first [ apply oblivious_Run | apply oblivious_doHandshake
          | apply oblivious_handleQueryResponse
          | apply oblivious_handleOtherResponse
          | apply traffic_oblivious;
            first [ apply oblivious_Run | apply oblivious_doHandshake
                  | apply oblivious_handleQueryResponse
                  | apply oblivious_handleOtherResponse ] ].
Qed.

(** ** Further properties of the sanitizer and of row reconstruction *)

(** The sanitized value as a cut of the 64 digits, with the cut as a
    natural number. *)
Lemma sanitizeRow_cut (row : list byte) (column : Column) :
  sanitizeRow row column
    = firstn (Nat.min 64 (N.to_nat (Length column)))
             (hexEncode (Vector.to_list (Sum256 (row ++ HashSaltBytes)))).
Proof.
  unfold sanitizeRow, len, uint32.
  pose proof (digest_hex_length (row ++ HashSaltBytes)) as Hlen.
  rewrite Hlen. change (N.of_nat 64 mod 2 ^ 32)%N with 64%N.
  destruct (N.ltb_spec (Length column) 64) as [Hlt|Hge].
  - rewrite Nat.min_r by lia. reflexivity.
  - rewrite Nat.min_l by lia. symmetry. apply firstn_all2.
    rewrite Hlen. reflexivity.
Qed.

(** X1: every byte of a sanitized value is one of the sixteen lowercase
    hexadecimal digits, whatever the value, the salt and the column. *)
Theorem sanitizeRow_lowercase_hex (row : list byte) (column : Column) :
  Forall (fun b => In b hextable) (sanitizeRow row column).
Proof.
  rewrite sanitizeRow_cut. apply Forall_forall. intros b Hb.
  pose proof (hexEncode_lowercase
                (Vector.to_list (Sum256 (row ++ HashSaltBytes)))) as Hall.
  rewrite Forall_forall in Hall. apply Hall.
  revert Hb. generalize (Nat.min 64 (N.to_nat (Length column))) as n.
  generalize (hexEncode (Vector.to_list (Sum256 (row ++ HashSaltBytes)))) as l.
  induction l as [|x l IH]; intros [|n]; simpl; try tauto.
  intros [->|H]; [left; reflexivity | right; exact (IH n H)].
Qed.

(** X2: the sanitized values of one row value under two columns agree
    on their common width: each, cut to the width of the other column,
    gives the same bytes, so a narrow column holds a prefix of what a
    wide one holds. *)
Theorem sanitizeRow_widths_agree (row : list byte) (narrow wide : Column) :
  firstn (N.to_nat (Length narrow)) (sanitizeRow row wide)
    = firstn (N.to_nat (Length wide)) (sanitizeRow row narrow).
Proof.
  rewrite !sanitizeRow_cut, !firstn_firstn. f_equal. lia.
Qed.

Lemma rebuild_from (rows : list rowValue) :
  forall payload : list byte,
    fold_left
      (fun payload row =>
         payload ++ (LengthEncodedInt (rowLen row) ++ rowBytes row))
      rows payload
    = payload
        ++ flat_map (fun row => LengthEncodedInt (rowLen row) ++ rowBytes row)
                    rows.
Proof.
  induction rows as [|row rows IH]; intros payload; simpl.
  - rewrite app_nil_r. reflexivity.
  - rewrite IH, <- app_assoc. reflexivity.
Qed.

(** X3: the payload of a rebuilt row is the fields' encodings one after
    the other, each a length prefix and the bytes: rebuilding the
    concatenation of two lists of values gives the two payloads
    concatenated, and no values give the empty payload. *)
Theorem constructNewResponse_app (first second : Packet)
    (rows rows' : list rowValue) :
  Payload (constructNewResponse first (rows ++ rows'))
    = Payload (constructNewResponse first rows)
        ++ Payload (constructNewResponse second rows')
  /\ Payload (constructNewResponse first rows)
     = flat_map (fun row => LengthEncodedInt (rowLen row) ++ rowBytes row) rows.
Proof.
  unfold constructNewResponse; simpl. rewrite !rebuild_from. simpl.
  split; [apply flat_map_app | reflexivity].
Qed.

(** ** What the methods leave untouched *)

Lemma relaysOnly_refl (server : ServerConnection) : relaysOnly server server.
Proof.
  repeat split; auto; exists []; [rewrite app_nil_r|]; reflexivity.
Qed.

Lemma relaysOnly_trans (s1 s2 s3 : ServerConnection) :
  relaysOnly s1 s2 -> relaysOnly s2 s3 -> relaysOnly s1 s3.
Proof.
  intros (Hw & Hc & Hcl & Hz & [sent Hs] & [consumed Hi] & Hf)
         (Hw' & Hc' & Hcl' & Hz' & [sent' Hs'] & [consumed' Hi'] & Hf').
  repeat split; try congruence; auto.
  - exists (sent ++ sent'). rewrite Hs', Hs, app_assoc. reflexivity.
  - exists (consumed ++ consumed'). rewrite Hi, Hi', app_assoc. reflexivity.
Qed.

Lemma extendsSession_refl (server : ServerConnection) :
  extendsSession server server.
Proof.
  repeat split; auto; exists []; rewrite ?app_nil_r; reflexivity.
Qed.

Lemma extendsSession_trans (s1 s2 s3 : ServerConnection) :
  extendsSession s1 s2 -> extendsSession s2 s3 -> extendsSession s1 s3.
Proof.
  intros ([sent Hs] & [wrote Hw] & [consumed Hi] & [taken Hc] & Hz & Hf)
         ([sent' Hs'] & [wrote' Hw'] & [consumed' Hi'] & [taken' Hc'] & Hz' & Hf').
  repeat split; try congruence; auto.
  - exists (sent ++ sent'). rewrite Hs', Hs, app_assoc. reflexivity.
  - exists (wrote ++ wrote'). rewrite Hw', Hw, app_assoc. reflexivity.
  - exists (consumed ++ consumed'). rewrite Hi, Hi', app_assoc. reflexivity.
  - exists (taken ++ taken'). rewrite Hc, Hc', app_assoc. reflexivity.
Qed.

Lemma relaysOnly_extendsSession (s1 s2 : ServerConnection) :
  relaysOnly s1 s2 -> extendsSession s1 s2.
Proof.
  intros (Hw & Hc & Hcl & Hz & Hs & Hi & Hf).
  repeat split; auto; exists []; rewrite ?app_nil_r; auto.
Qed.

Lemma steps_bind {A B : Type}
    (R : ServerConnection -> ServerConnection -> Prop)
    (m : M A) (k : A -> M B) :
  (forall s1 s2 s3, R s1 s2 -> R s2 s3 -> R s1 s3) ->
  steps R m -> (forall a, steps R (k a)) -> steps R (bind m k).
Proof.
  intros Htrans Hm Hk server. unfold bind. specialize (Hm server).
  destruct (m server) as [a server'| | |]; try exact Hm.
  specialize (Hk a server').
  destruct (k a server'); try exact I; exact (Htrans _ _ _ Hm Hk).
Qed.

Lemma steps_weaken {A : Type}
    (R R' : ServerConnection -> ServerConnection -> Prop) (m : M A) :
  (forall s1 s2, R s1 s2 -> R' s1 s2) -> steps R m -> steps R' m.
Proof.
  intros Himp Hm server. specialize (Hm server).
  destruct (m server); auto.
Qed.

Lemma relays_bind {A B : Type} (m : M A) (k : A -> M B) :
  steps relaysOnly m -> (forall a, steps relaysOnly (k a)) ->
  steps relaysOnly (bind m k).
Proof. apply steps_bind. exact relaysOnly_trans. Qed.

Lemma relays_ret {A : Type} (a : A) : steps relaysOnly (ret a).
Proof. intros server. apply relaysOnly_refl. Qed.

Lemma relays_lift {A : Type} (o : option A) : steps relaysOnly (lift o).
Proof. intros server. destruct o; apply relaysOnly_refl. Qed.

Lemma relays_outOfFuel {A : Type} : steps relaysOnly (@outOfFuel A).
Proof. intros server. exact I. Qed.

Lemma relays_NextPacket : steps relaysOnly NextPacket.
Proof.
  intros server. unfold NextPacket.
  destruct (incoming (stream server)) as [|result rest] eqn:E.
  - apply relaysOnly_refl.
  - repeat split; simpl; auto.
    + exists []. rewrite app_nil_r. reflexivity.
    + exists [result]. rewrite E. reflexivity.
Qed.

Lemma relays_sendClient (packet : Packet) :
  steps relaysOnly (sendClient packet).
Proof.
  intros server. repeat split; simpl; auto.
  - exists [packet]. reflexivity.
  - exists []. reflexivity.
Qed.

Lemma relays_setFinished : steps relaysOnly setFinished.
Proof.
  intros server. repeat split; simpl; auto; exists [];
    rewrite ?app_nil_r; reflexivity.
Qed.

Create HintDb relays.
#[local] Hint Resolve relays_ret relays_lift relays_outOfFuel
  relays_NextPacket relays_sendClient relays_setFinished : relays.

Ltac relays_step :=
  match goal with
  | |- steps relaysOnly (bind _ _) => apply relays_bind; [|intros]
  | |- steps relaysOnly (match ?x with _ => _ end) => destruct x
  | |- steps relaysOnly _ => solve [auto with relays]
  end.

Lemma relays_handleOtherResponse (fuel : nat) :
  steps relaysOnly (handleOtherResponse fuel).
Proof. induction fuel as [|fuel IH]; simpl; repeat relays_step. Qed.

Lemma relays_readColumnLoop (count : nat) :
  forall columns, steps relaysOnly (readColumnLoop count columns).
Proof.
  induction count as [|count IH]; intros columns; simpl; repeat relays_step.
Qed.

Lemma relays_readColumnDefinitions (packet : Packet) :
  steps relaysOnly (readColumnDefinitions packet).
Proof.
  unfold readColumnDefinitions. repeat relays_step.
  apply relays_readColumnLoop.
Qed.

Lemma relays_rowLoop (fuel : nat) (columns : list Column) :
  steps relaysOnly (rowLoop fuel columns).
Proof. induction fuel as [|fuel IH]; simpl; repeat relays_step. Qed.

Lemma relays_handleQueryResponse (fuel : nat) :
  steps relaysOnly (handleQueryResponse fuel).
Proof.
  unfold handleQueryResponse. repeat relays_step.
  - apply relays_readColumnDefinitions.
  - apply relays_rowLoop.
Qed.

(** X4: relaying a response, to a query or to another command, never
    writes to the server and never takes a command from the client's
    queue: however it ends, a panic included, it has only read results
    off the stream and appended packets to the client channel, it has
    not lowered [finished] and it has left the other flags alone. *)
Theorem responses_only_relay (fuel : nat) :
  steps relaysOnly (handleQueryResponse fuel)
  /\ steps relaysOnly (handleOtherResponse fuel).
Proof.
  split; [apply relays_handleQueryResponse | apply relays_handleOtherResponse].
Qed.

Lemma extends_bind {A B : Type} (m : M A) (k : A -> M B) :
  steps extendsSession m -> (forall a, steps extendsSession (k a)) ->
  steps extendsSession (bind m k).
Proof. apply steps_bind. exact extendsSession_trans. Qed.

Lemma extends_relays {A : Type} (m : M A) :
  steps relaysOnly m -> steps extendsSession m.
Proof. apply steps_weaken. exact relaysOnly_extendsSession. Qed.

Lemma extends_WritePacket (packet : Packet) :
  steps extendsSession (WritePacket packet).
Proof.
  intros server. repeat split; simpl; auto.
  - exists []. rewrite app_nil_r. reflexivity.
  - exists [packet]. reflexivity.
  - exists []. reflexivity.
  - exists []. reflexivity.
Qed.

Lemma extends_recvServer : steps extendsSession recvServer.
Proof.
  intros server. unfold recvServer.
  destruct (ServerChannel (proxy server)) as [|packet rest] eqn:E.
  - apply extendsSession_refl.
  - repeat split; simpl; auto.
    + exists []. rewrite app_nil_r. reflexivity.
    + exists []. rewrite app_nil_r. reflexivity.
    + exists []. reflexivity.
    + exists [packet]. rewrite E. reflexivity.
Qed.

Create HintDb extends.
#[local] Hint Resolve extends_WritePacket extends_recvServer : extends.
#[local] Hint Extern 1 (steps extendsSession _) =>
  (apply extends_relays; solve [auto with relays]) : extends.

Ltac extends_step :=
  match goal with
  | |- steps extendsSession (bind _ _) => apply extends_bind; [|intros]
  | |- steps extendsSession (match ?x with _ => _ end) => destruct x
  | |- steps extendsSession _ => solve [auto with extends]
  end.

Lemma extends_setStatementTimeout (seconds : N) :
  steps extendsSession (setStatementTimeout seconds).
Proof. unfold setStatementTimeout. repeat extends_step. Qed.

Lemma extends_doHandshake : steps extendsSession doHandshake.
Proof.
  unfold doHandshake. repeat extends_step. apply extends_setStatementTimeout.
Qed.

Lemma extends_commandStep (fuel : nat) :
  steps extendsSession (commandStep fuel).
Proof.
  unfold commandStep. repeat extends_step.
  - apply extends_relays, relays_handleQueryResponse.
  - apply extends_relays, relays_handleOtherResponse.
Qed.

Lemma extends_commandLoop (fuel : nat) :
  steps extendsSession (commandLoop fuel).
Proof.
  induction fuel as [|fuel IH]; intros server; simpl.
  - destruct (finished server); [apply extendsSession_refl | exact I].
  - destruct (finished server); [apply extendsSession_refl|].
    exact (@extends_bind _ _ (commandStep fuel) (fun _ => commandLoop fuel)
             (extends_commandStep fuel) (fun _ => IH) server).
Qed.

(** X5: a session only ever extends its histories: whatever [Run] does
    and however it ends, the packets already sent to the client and
    already written to the server stay where they are, in order, with
    new ones after them; the stream and the client's queue are consumed
    from the front; the sanitizing flag is not written and [finished],
    once set, stays set. *)
Theorem Run_extends_session (fuel : nat) : steps extendsSession (Run fuel).
Proof.
  intros server. unfold Run.
  pose proof (@extends_bind _ _ doHandshake (fun _ => commandLoop fuel)
                extends_doHandshake (fun _ => extends_commandLoop fuel) server)
    as H.
  destruct (bind doHandshake (fun _ => commandLoop fuel) server);
    try exact H; try exact I;
    destruct H as (Hs & Hw & Hi & Hc & Hz & Hf); repeat split; auto.
Qed.

(** [commandLoop] returns only from a state in which [finished] is
    set. *)
Lemma commandLoop_returns_finished (fuel : nat) :
  forall (server server' : ServerConnection) (u : unit),
    commandLoop fuel server = Returned u server' -> finished server' = true.
Proof.
  induction fuel as [|fuel IH]; intros server server' u; simpl.
  - destruct (finished server) eqn:E; [|discriminate].
    intros [= _ <-]. exact E.
  - destruct (finished server) eqn:E.
    + intros [= _ <-]. exact E.
    + unfold bind. destruct (commandStep fuel server); try discriminate.
      apply IH.
Qed.

(** X6: [Run] returns only once [finished] is set, and whenever it
    returns or panics the proxy has been closed. *)
Theorem Run_returns_finished_closed (fuel : nat) (server : ServerConnection) :
  match Run fuel server with
  | Returned _ server' =>
      finished server' = true /\ closed (proxy server') = true
  | Panicked server' => closed (proxy server') = true
  | Blocked _ | OutOfFuel => True
  end.
Proof.
  unfold Run.
  destruct (bind doHandshake (fun _ => commandLoop fuel) server)
    as [u server'| | |] eqn:E; try exact I; [|reflexivity].
  split; [|reflexivity]. simpl.
  unfold bind in E. destruct (doHandshake server); try discriminate.
  exact (commandLoop_returns_finished _ _ E).
Qed.

(** ** Responses, packet by packet *)

Lemma relayed_relayed (server : ServerConnection)
    (rest rest' : list (Packet * option error)) (sent sent' : list Packet) :
  relayed (relayed server rest sent) rest' sent'
    = relayed server rest' (sent ++ sent').
Proof. unfold relayed; simpl. rewrite app_assoc. reflexivity. Qed.


Lemma NextPacket_next (server : ServerConnection)
    (result : Packet * option error) (rest : list (Packet * option error)) :
  incoming (stream server) = result :: rest ->
  NextPacket server = Returned result (relayed server rest []).
Proof.
  intros H. unfold NextPacket, relayed. rewrite H, app_nil_r.
  destruct server as [[sc cc cl] [inc w] sz fin]. reflexivity.
Qed.

Lemma NextPacket_fails (server : ServerConnection) :
  failsFirst (incoming (stream server)) ->
  exists e, NextPacket server
            = Returned (fst (hd (zeroPacket, None) (incoming (stream server))),
                        Some e)
                       (relayed server (tl (incoming (stream server))) []).
Proof.
  intros H. unfold NextPacket, relayed.
  destruct server as [[sc cc cl] [inc w] sz fin]; simpl in *.
  rewrite app_nil_r. destruct inc as [|[p [e|]] rest]; simpl in *.
  - eexists. reflexivity.
  - eexists. reflexivity.
  - contradiction.
Qed.

Lemma sendClient_relayed (packet : Packet) (server : ServerConnection) :
  sendClient packet server
    = Returned tt (relayed server (incoming (stream server)) [packet]).
Proof.
  destruct server as [[sc cc cl] [inc w] sz fin]. reflexivity.
Qed.

(** One pass of the loop of [handleOtherResponse]. *)
Lemma handleOtherResponse_pass (fuel : nat) (server : ServerConnection)
    (response : Packet) (rest : list (Packet * option error))
    (terminal : bool) :
  incoming (stream server) = ok response :: rest ->
  isTerminal response = Some terminal ->
  handleOtherResponse (S fuel) server
    = if terminal then Returned tt (relayed server rest [response])
      else handleOtherResponse fuel (relayed server rest [response]).
Proof.
  intros Hin Hterm. simpl. unfold bind at 1.
  rewrite (NextPacket_next _ Hin). unfold ok. cbv iota beta.
  unfold bind at 1. rewrite sendClient_relayed. simpl incoming.
  rewrite relayed_relayed. simpl app.
  unfold bind, lift. rewrite Hterm. destruct terminal; reflexivity.
Qed.

Lemma handleOtherResponse_run (body : list Packet) :
  forall (fuel : nat) (server : ServerConnection) (last : Packet)
         (rest : list (Packet * option error)),
    incoming (stream server) = map ok body ++ ok last :: rest ->
    Forall (fun packet => isTerminal packet = Some false) body ->
    isTerminal last = Some true ->
    List.length body < fuel ->
    handleOtherResponse fuel server
      = Returned tt (relayed server rest (body ++ [last])).
Proof.
  induction body as [|packet body IH]; intros fuel server last rest Hin Hbody
    Hlast Hfuel; (destruct fuel as [|fuel]; [simpl in Hfuel; lia|]).
  - exact (handleOtherResponse_pass fuel _ Hin Hlast).
  - inversion Hbody as [|? ? Hpacket Hbody']; subst.
    rewrite (handleOtherResponse_pass fuel _ Hin Hpacket).
    rewrite (IH fuel _ last rest); auto; [|simpl in Hfuel; lia].
    rewrite relayed_relayed. reflexivity.
Qed.

(** X7: [handleOtherResponse] forwards the packets of a response to
    the client as they are and in order, up to and including the first
    one that classifies as OK, ERR or EOF, and reads no further. *)
Theorem handleOtherResponse_relays (fuel : nat) (server : ServerConnection)
    (body : list Packet) (last : Packet)
    (rest : list (Packet * option error)) :
  incoming (stream server) = map ok body ++ ok last :: rest ->
  Forall (fun packet => isTerminal packet = Some false) body ->
  isTerminal last = Some true ->
  List.length body < fuel ->
  handleOtherResponse fuel server
    = Returned tt (relayed server rest (body ++ [last])).
Proof. apply handleOtherResponse_run. Qed.

(** X8: when a read fails in the middle of such a response, because of
    an error or because the server is gone, the packets before it have
    been forwarded, nothing is sent for the failed read and [finished]
    is set. *)
Theorem handleOtherResponse_read_fails (body : list Packet) :
  forall (fuel : nat) (server : ServerConnection)
         (failing : list (Packet * option error)),
    incoming (stream server) = map ok body ++ failing ->
    Forall (fun packet => isTerminal packet = Some false) body ->
    failsFirst failing ->
    List.length body < fuel ->
    handleOtherResponse fuel server
      = Returned tt (finish (relayed server (tl failing) body)).
Proof.
  induction body as [|packet body IH]; intros fuel server failing Hin Hbody
    Hfail Hfuel; (destruct fuel as [|fuel]; [simpl in Hfuel; lia|]).
  - simpl in Hin. simpl handleOtherResponse. unfold bind.
    assert (Hfail' : failsFirst (incoming (stream server)))
      by (rewrite Hin; exact Hfail).
    destruct (NextPacket_fails _ Hfail') as [e ->]. rewrite Hin. reflexivity.
  - inversion Hbody as [|? ? Hpacket Hbody']; subst.
    rewrite (handleOtherResponse_pass fuel _ Hin Hpacket).
    rewrite (IH fuel _ failing); auto; [|simpl in Hfuel; lia].
    rewrite relayed_relayed. reflexivity.
Qed.

(** ** Result sets, packet by packet *)



(** The pass over a terminal packet ends the loop. *)
Lemma rowLoop_last (fuel : nat) (columns : list Column)
    (server : ServerConnection) (last : Packet)
    (rest : list (Packet * option error)) :
  incoming (stream server) = ok last :: rest ->
  isTerminal last = Some true ->
  rowLoop (S fuel) columns server = Returned tt (relayed server rest [last]).
Proof.
  intros Hin Hterm. simpl. unfold bind at 1. rewrite (NextPacket_next _ Hin).
  unfold ok. cbv iota beta. unfold bind at 1, lift at 1. rewrite Hterm.
  rewrite sendClient_relayed. simpl incoming. rewrite relayed_relayed.
  reflexivity.
Qed.





(** X10: a row packet whose payload starts with the byte 0x00, the
    length prefix of an empty first field, and is at least seven bytes
    long classifies as an OK packet: whatever the columns, the row loop
    forwards it as it is, with none of its fields sanitized, and ends;
    the packets behind it are left on the stream. *)
Theorem row_with_empty_first_field_ends_rows (fuel : nat)
    (columns : list Column) (server : ServerConnection) (rowPacket : Packet)
    (fields : list byte) (rest : list (Packet * option error)) :
  incoming (stream server) = ok rowPacket :: rest ->
  Payload rowPacket = x00 :: fields ->
  6 <= List.length fields ->
  rowLoop (S fuel) columns server
    = Returned tt (relayed server rest [rowPacket]).
Proof.
  intros Hin Hpayload Hlen. apply rowLoop_last; [exact Hin|].
  unfold isTerminal, orElse, packetIsOK, payload0, obind, len.
  rewrite Hpayload. simpl Byte.eqb. cbv iota beta.
  replace (7 <=? N.of_nat (List.length (x00 :: fields)))%N with true;
    [reflexivity|].
  symmetry. apply N.leb_le. simpl List.length. lia.
Qed.


(** ** The handshake, path by path *)

Lemma recvServer_next (server : ServerConnection) (packet : Packet)
    (pending : list Packet) :
  ServerChannel (proxy server) = packet :: pending ->
  recvServer server = Returned packet (commanded server pending []).
Proof.
  intros H. unfold recvServer, commanded. rewrite H, app_nil_r.
  destruct server as [[sc cc cl] [inc w] sz fin]. reflexivity.
Qed.

Lemma WritePacket_commanded (packet : Packet) (server : ServerConnection) :
  WritePacket packet server
    = Returned tt (commanded server (ServerChannel (proxy server)) [packet]).
Proof.
  destruct server as [[sc cc cl] [inc w] sz fin]. reflexivity.
Qed.

(** The handshake up to the classification of the auth result. *)
Lemma doHandshake_until_auth (server : ServerConnection)
    (welcomePacket clientHandshake response : Packet)
    (results : list (Packet * option error)) (pending : list Packet) :
  incoming (stream server) = ok welcomePacket :: ok response :: results ->
  ServerChannel (proxy server) = clientHandshake :: pending ->
  packetIsOK response = Some true ->
  doHandshake server
    = (err <- setStatementTimeout 20 ;;
       match err with
       | Some _ => setFinished
       | None => sendClient response
       end)
        (commanded (relayed server results [welcomePacket]) pending
                   [clientHandshake]).
Proof.
  intros Hin Hchan Hok. unfold doHandshake. unfold bind at 1.
  rewrite (NextPacket_next _ Hin). unfold ok at 1. cbv iota beta.
  unfold bind at 1. rewrite sendClient_relayed. unfold bind at 1.
  rewrite recvServer_next with (packet := clientHandshake) (pending := pending)
    by exact Hchan.
  unfold bind at 1. rewrite WritePacket_commanded. unfold bind at 1.
  rewrite NextPacket_next with (result := ok response) (rest := results)
    by reflexivity.
  unfold ok at 1. cbv iota beta. unfold bind at 1, lift at 1. rewrite Hok.
  cbv iota beta. simpl negb. cbv iota.
  f_equal. unfold commanded, relayed; simpl. rewrite !app_nil_r.
  reflexivity.
Qed.

(** X12: a handshake that succeeds. The greeting goes to the client,
    the client's answer to the server, followed by the statement
    timeout command; the server's answer to that command is read and
    kept from the client, and only then is the OK auth result
    forwarded. [finished] is not touched. *)
Theorem doHandshake_succeeds (server : ServerConnection)
    (welcomePacket clientHandshake response answer : Packet)
    (results : list (Packet * option error)) (pending : list Packet) :
  incoming (stream server)
    = ok welcomePacket :: ok response :: ok answer :: results ->
  ServerChannel (proxy server) = clientHandshake :: pending ->
  packetIsOK response = Some true ->
  packetIsERR answer = Some false ->
  doHandshake server
    = Returned tt
        (commanded (relayed server results [welcomePacket; response]) pending
                   [clientHandshake; mkPacket x00 (timeoutQuery 20)]).
Proof.
  intros Hin Hchan Hok Herr.
  rewrite doHandshake_until_auth
    with (welcomePacket := welcomePacket) (clientHandshake := clientHandshake)
         (response := response) (results := ok answer :: results)
         (pending := pending); auto.
  unfold setStatementTimeout, bind, WritePacket, NextPacket, lift, ok; simpl.
  rewrite Herr. unfold ret, sendClient, commanded, relayed; simpl.
  rewrite <- ?app_assoc. reflexivity.
Qed.


(** X14: when the very first read fails, because of an error or
    because the server is gone, the session ends at once: [Run] returns
    with [finished] set and the proxy closed, and nothing has been sent
    to the client, written to the server or taken from the client's
    queue. *)
Theorem Run_greeting_fails (fuel : nat) (server : ServerConnection) :
  failsFirst (incoming (stream server)) ->
  Run fuel server
    = Returned tt
        (closeProxy
           (finish (relayed server (tl (incoming (stream server))) []))).
Proof.
  intros Hfail. unfold Run, bind, doHandshake. unfold bind.
  destruct (NextPacket_fails _ Hfail) as [e ->]. cbv iota beta.
  unfold setFinished. destruct fuel; reflexivity.
Qed.

(** ** The command loop, command by command *)

Lemma supportedCommand_supported (packet : Packet) (cmd : byte) :
  packetCommand packet = Some cmd ->
  In cmd supportedCodes ->
  supportedCommand packet = Some true.
Proof.
  intros Hcmd Hin. unfold supportedCommand. rewrite Hcmd.
  unfold supportedCodes in Hin. simpl in Hin.
  decompose [or] Hin; subst; try contradiction; reflexivity.
Qed.

(** X15: a supported command other than QUERY is written to the server
    as it is, and the packets of the answer are forwarded to the client
    as they are, up to and including the first terminal one; the
    command is the only packet written and nothing is rebuilt. *)
Theorem commandStep_relays_command (fuel : nat) (server : ServerConnection)
    (packet last : Packet) (cmd : byte) (body pending : list Packet)
    (rest : list (Packet * option error)) :
  ServerChannel (proxy server) = packet :: pending ->
  packetCommand packet = Some cmd ->
  In cmd supportedCodes ->
  cmd <> COM_QUERY ->
  incoming (stream server) = map ok body ++ ok last :: rest ->
  Forall (fun response => isTerminal response = Some false) body ->
  isTerminal last = Some true ->
  List.length body < fuel ->
  commandStep fuel server
    = Returned tt
        (commanded (relayed server rest (body ++ [last])) pending [packet]).
Proof.
  intros Hchan Hcmd Hsup Hquery Hin Hbody Hlast Hfuel.
  unfold commandStep. unfold bind at 1.
  rewrite recvServer_next with (packet := packet) (pending := pending)
    by exact Hchan.
  unfold bind at 1, lift at 1.
  rewrite (supportedCommand_supported _ Hcmd Hsup). cbv iota beta.
  unfold bind at 1. rewrite WritePacket_commanded.
  unfold bind at 1, lift at 1. rewrite Hcmd.
  assert (Hneq : Byte.eqb cmd COM_QUERY = false).
  { destruct (Byte.eqb cmd COM_QUERY) eqn:E; [|reflexivity].
    apply Byte.byte_dec_bl in E. contradiction. }
  rewrite Hneq.
  rewrite handleOtherResponse_run
    with (body := body) (last := last) (rest := rest); auto.
  unfold commanded, relayed; simpl. rewrite !app_nil_r. reflexivity.
Qed.

Lemma commandStep_unsupported (fuel : nat) (server : ServerConnection)
    (packet : Packet) (pending : list Packet) (cmd : byte) :
  ServerChannel (proxy server) = packet :: pending ->
  packetCommand packet = Some cmd ->
  ~ In cmd supportedCodes ->
  commandStep fuel server
    = Returned tt
        (relayed (commanded server pending []) (incoming (stream server))
           [ErrorPacket (SequenceID packet) 1002 "HY000" unsupportedFormat cmd]).
Proof.
  intros Hchan Hcmd Hnot. unfold commandStep. unfold bind at 1.
  rewrite recvServer_next with (packet := packet) (pending := pending)
    by exact Hchan.
  unfold bind at 1, lift at 1.
  rewrite (supportedCommand_unsupported _ Hcmd Hnot). cbv iota beta.
  unfold bind at 1, lift at 1. rewrite Hcmd.
  rewrite sendClient_relayed. reflexivity.
Qed.

(** X16: a run of unsupported commands. Each of them is answered with
    its error packet, in the order of the commands; the server stream
    is neither written to nor read, [finished] stays false, and when
    the queue is empty the loop waits for the next command. *)
Theorem commandLoop_rejects_all (commands : list Packet) :
  forall (errors : list Packet) (fuel : nat) (server : ServerConnection),
    finished server = false ->
    ServerChannel (proxy server) = commands ->
    Forall2 (fun packet errPacket =>
               exists cmd,
                 packetCommand packet = Some cmd
                 /\ ~ In cmd supportedCodes
                 /\ errPacket
                    = ErrorPacket (SequenceID packet) 1002 "HY000"
                        unsupportedFormat cmd)
            commands errors ->
    List.length commands < fuel ->
    commandLoop fuel server
      = Blocked
          (relayed (commanded server [] []) (incoming (stream server)) errors).
Proof.
  induction commands as [|packet commands IH];
    intros errors fuel server Hfin Hchan Herrors Hfuel;
    (destruct fuel as [|fuel]; [simpl in Hfuel; lia|]);
    inversion Herrors as [|? errPacket ? errors' Hpacket Herrors']; subst;
    simpl; rewrite Hfin; unfold bind at 1.
  - unfold commandStep, bind, recvServer. rewrite Hchan.
    f_equal. destruct server as [[sc cc cl] [inc w] sz fin].
    unfold relayed, commanded; simpl in *. subst sc.
    rewrite !app_nil_r. reflexivity.
  - destruct Hpacket as (cmd & Hcmd & Hnot & ->).
    rewrite (commandStep_unsupported fuel _ Hchan Hcmd Hnot).
    rewrite (IH errors' fuel); auto; [|simpl in Hfuel; lia].
    f_equal. unfold relayed, commanded; simpl.
    rewrite !app_nil_r, <- app_assoc. reflexivity.
Qed.

Lemma relayRow_safe (columns : list Column) :
  forall fields : list (list byte * bool),
    Forall (fun column => IsSafe column = true) columns ->
    List.length fields = List.length columns ->
    relayRow columns fields = map plainField fields.
Proof.
  unfold relayRow.
  induction columns as [|column columns IH]; intros [|[value nonNull] fields]
    Hsafe Hlen; simpl in *; try discriminate; [reflexivity|].
  inversion Hsafe as [|? ? Hcolumn Hsafe']; subst.
  rewrite Hcolumn, IH; auto.
Qed.

(** X17: when every column of the result set is safe, [readRowValues]
    returns the fields as they were decoded, the bytes of each present
    field and nil for each NULL: the digest and the salt play no
    part. *)
Theorem readRowValues_safe_columns (packet : Packet) (columns : list Column) :
  Forall (fun column => IsSafe column = true) columns ->
  readRowValues packet columns
    = option_map (fun fields => (map plainField fields, None))
                 (decodeFields (NewPacketParser packet) (List.length columns)).
Proof.
  intros Hsafe. unfold readRowValues. rewrite readRowLoop_relayRow.
  destruct (decodeFields _ _) as [fields|] eqn:E; simpl; [|reflexivity].
  rewrite relayRow_safe; auto. exact (decodeFields_length _ _ E).
Qed.

End Relay.

(** ** The properties at concrete sessions

    The handler with the codec of [SpecCodec] and the collaborators of
    [Scenario]. *)

Import Scenario.

#[local] Abbreviation specRows :=
  (readRowValues constDigest salt idIsSafe
     SpecCodec.NewPacketParser SpecCodec.ReadStringOrNull).
#[local] Abbreviation specQuery :=
  (handleQueryResponse constDigest salt idIsSafe
     SpecCodec.NewPacketParser SpecCodec.ReadEncodedInt
     SpecCodec.ReadStringOrNull SpecCodec.ReadColumn
     SpecCodec.LengthEncodedInt).
#[local] Abbreviation specStep :=
  (commandStep constDigest salt idIsSafe
     SpecCodec.NewPacketParser SpecCodec.ReadEncodedInt
     SpecCodec.ReadStringOrNull SpecCodec.ReadColumn
     SpecCodec.LengthEncodedInt SpecCodec.ErrorPacket).
#[local] Abbreviation specLoop :=
  (commandLoop constDigest salt idIsSafe
     SpecCodec.NewPacketParser SpecCodec.ReadEncodedInt
     SpecCodec.ReadStringOrNull SpecCodec.ReadColumn
     SpecCodec.LengthEncodedInt SpecCodec.ErrorPacket).
#[local] Abbreviation specRun :=
  (Run constDigest salt idIsSafe
     SpecCodec.NewPacketParser SpecCodec.ReadEncodedInt
     SpecCodec.ReadStringOrNull SpecCodec.ReadColumn
     SpecCodec.LengthEncodedInt SpecCodec.ErrorPacket).

(** An OK packet has a payload, and no two classifiers hold of it. *)
Lemma classification_exclusive_witness :
  Payload authOK <> []
  /\ exists ok err eof : bool,
       packetIsOK authOK = Some ok
       /\ packetIsERR authOK = Some err
       /\ packetIsEOF authOK = Some eof
       /\ ok && err = false /\ ok && eof = false /\ err && eof = false.
Proof.
  split; [discriminate|].
  apply (classification_exclusive authOK). discriminate.
Defined.

Lemma x16_unsupported : ~ In x16 supportedCodes.
Proof. simpl. intuition discriminate. Qed.

(** The command 0x16 on a fresh loop: the error packet is all that is
    sent, and the loop goes on. *)
Lemma unsupported_command_rejected_witness :
  (finished (session [] [prepare]) = false /\ ~ In x16 supportedCodes)
  /\ specStep 3 (session [] [prepare])
       = Returned tt
           (mkServer
              (mkProxy []
                 [SpecCodec.ErrorPacket x00 1002 "HY000" unsupportedFormat x16]
                 false)
              (mkStream [] []) false false)
  /\ specLoop 4 (session [] [prepare])
       = specLoop 3
           (mkServer
              (mkProxy []
                 [SpecCodec.ErrorPacket x00 1002 "HY000" unsupportedFormat x16]
                 false)
              (mkStream [] []) false false).
Proof.
  split; [split; [reflexivity | exact x16_unsupported]|].
  apply (unsupported_command_rejected constDigest salt idIsSafe
           SpecCodec.NewPacketParser SpecCodec.ReadEncodedInt
           SpecCodec.ReadStringOrNull SpecCodec.ReadColumn
           SpecCodec.LengthEncodedInt SpecCodec.ErrorPacket
           3 (session [] [prepare]) (packet := prepare) (pending := [])
           (cmd := x16)).
  - reflexivity.
  - reflexivity.
  - reflexivity.
  - exact x16_unsupported.
Defined.

(** A server that answers the login with an ERR packet. *)
Lemma auth_failure_terminates_witness :
  packetIsOK authERR = Some false
  /\ specRun 8 (session [(greeting, None); (authERR, None)] [login])
     = Returned tt
         (mkServer (mkProxy [] [greeting] true) (mkStream [] [login])
                   false true).
Proof.
  split; [reflexivity|].
  apply (auth_failure_terminates constDigest salt idIsSafe
           SpecCodec.NewPacketParser SpecCodec.ReadEncodedInt
           SpecCodec.ReadStringOrNull SpecCodec.ReadColumn
           SpecCodec.LengthEncodedInt SpecCodec.ErrorPacket
           8 (session [(greeting, None); (authERR, None)] [login])
           (welcomePacket := greeting) (clientHandshake := login)
           (response := authERR) (results := []) (pending := [])).
  - reflexivity.
  - reflexivity.
  - reflexivity.
Defined.

(** C5 as stated fails: after a failed authentication the session ends
    with the greeting as the only packet the client was sent; the ERR
    packet of the server is neither the last packet nor among them. *)
Lemma auth_failure_not_forwarded :
  exists server' : ServerConnection,
    specRun 8 (session [(greeting, None); (authERR, None)] [login])
      = Returned tt server'
    /\ ClientChannel (proxy server') = [greeting]
    /\ last (ClientChannel (proxy server')) zeroPacket <> authERR
    /\ ~ In authERR (ClientChannel (proxy server')).
Proof.
  eexists. split; [reflexivity|]. simpl.
  split; [reflexivity|]. split; [discriminate|].
  intros [H|[]]. discriminate H.
Qed.

(** C3, where the code departs from it: a row of one NULL field is read
    as a nil value and rebuilt as the single byte 0x00, which decodes
    as an empty string that is present, where the original decoded as
    NULL; the marker 0xFB is gone. *)
Theorem null_field_rebuilt_as_empty_string :
  specRows nullRow [note] = Some ([None], None)
  /\ Payload (constructNewResponse SpecCodec.LengthEncodedInt nullRow [None])
     = [x00]
  /\ SpecCodec.ReadStringOrNull (Payload nullRow) = Some ([], false, [])
  /\ SpecCodec.ReadStringOrNull
       (Payload (constructNewResponse SpecCodec.LengthEncodedInt nullRow [None]))
     = Some ([], true, []).
Proof. repeat split. Qed.

(** The same through the row loop of a query: the client is sent the
    row with the field 0x00. *)
Lemma null_row_relayed_as_empty :
  traffic
    (specQuery 4
       (session [(oneColumn, None); (noteDefinition, None);
                 (endOfColumns, None); (nullRow, None); (endOfColumns, None)]
                []))
  = Some ([oneColumn; noteDefinition; endOfColumns; mkPacket x04 [x00];
           endOfColumns], []).
Proof. reflexivity. Qed.

(** The query scenario: the safe field is relayed as it is, the other
    one as the sanitized value cut to the width of its column. *)
Lemma query_scenario_row :
  specRows aliceRow [email; idColumn]
    = Some ([Some (sanitizeRow constDigest salt alice email);
             Some (list_byte_of_string "7")], None)
  /\ len (sanitizeRow constDigest salt alice email) = 32%N.
Proof. split; reflexivity. Qed.

(** C6, where the code departs from it: the read that follows the
    timeout command fails, the zero packet it returns is classified
    before the error is looked at, and the index into its empty payload
    panics. *)
Theorem statement_timeout_classifies_failed_read :
  specRun 8 (session [(greeting, None); (authOK, None); failedRead] [login])
    = Panicked
        (mkServer (mkProxy [] [greeting] true)
                  (mkStream [] [login; mkPacket x00 (timeoutQuery 20)])
                  false false)
  /\ packetIsERR (fst failedRead) = None.
Proof. split; reflexivity. Qed.

(** A packet with an empty payload reaches the classifiers and
    [packetCommand] on other paths as well: as the auth result of the
    server, and as a command of the client. *)
Lemma empty_payload_panics :
  (exists server',
     specRun 8 (session [(greeting, None); (mkPacket x02 [], None)] [login])
       = Panicked server')
  /\ (exists server',
        specRun 8 (session [(greeting, None); (authOK, None); (authOK, None)]
                           [login; mkPacket x00 []])
          = Panicked server').
Proof. split; eexists; reflexivity. Qed.

(** A truncated row under the codec of [SpecCodec]: the read panics
    inside the parser and the query ends with [finished] still false. *)
Lemma truncated_row_panics :
  specRows truncatedRow [note] = None
  /\ specQuery 4
       (session [(oneColumn, None); (noteDefinition, None);
                 (endOfColumns, None); (truncatedRow, None)] [])
     = Panicked
         (mkServer (mkProxy [] [oneColumn; noteDefinition; endOfColumns] false)
                   (mkStream [] []) false false).
Proof. split; reflexivity. Qed.

(** ** The further properties at concrete sessions *)

#[local] Abbreviation specRowLoop :=
  (rowLoop constDigest salt idIsSafe
     SpecCodec.NewPacketParser SpecCodec.ReadStringOrNull
     SpecCodec.LengthEncodedInt).

(** A FIELD_LIST answer of two packets, with a packet of the next
    answer behind it. *)
Lemma handleOtherResponse_relays_witness :
  handleOtherResponse 3
    (session [ok noteDefinition; ok endOfColumns; ok pong] [])
  = Returned tt
      (relayed (session [ok noteDefinition; ok endOfColumns; ok pong] [])
               [ok pong] ([noteDefinition] ++ [endOfColumns])).
Proof.
  apply handleOtherResponse_relays.
  - reflexivity.
  - repeat constructor.
  - reflexivity.
  - simpl. lia.
Defined.

(** The same answer cut by a failed read. *)
Lemma handleOtherResponse_read_fails_witness :
  handleOtherResponse 3 (session [ok noteDefinition; failedRead; ok pong] [])
  = Returned tt
      (finish
         (relayed (session [ok noteDefinition; failedRead; ok pong] [])
                  (tl [failedRead; ok pong]) [noteDefinition])).
Proof.
  apply handleOtherResponse_read_fails.
  - reflexivity.
  - repeat constructor.
  - simpl. discriminate.
  - simpl. lia.
Defined.


(** A row of two columns whose first field is empty: the second field,
    of the column email, reaches the client as it is. *)
Lemma row_with_empty_first_field_ends_rows_witness :
  specRowLoop 1 [idColumn; email]
    (session [ok emptyFirstRow; ok noteRow; ok endOfColumns] [])
  = Returned tt
      (relayed (session [ok emptyFirstRow; ok noteRow; ok endOfColumns] [])
               [ok noteRow; ok endOfColumns] [emptyFirstRow]).
Proof.
  apply row_with_empty_first_field_ends_rows
    with (fields := x05 :: list_byte_of_string "hello").
  - reflexivity.
  - reflexivity.
  - simpl. lia.
Defined.


(** A handshake with an OK answer to the timeout command. *)
Lemma doHandshake_succeeds_witness :
  doHandshake
    (session [ok greeting; ok authOK; ok pong; ok endOfColumns] [login; ping])
  = Returned tt
      (commanded
         (relayed
            (session [ok greeting; ok authOK; ok pong; ok endOfColumns]
                     [login; ping])
            [ok endOfColumns] [greeting; authOK])
         [ping] [login; mkPacket x00 (timeoutQuery 20)]).
Proof.
  apply doHandshake_succeeds with (answer := pong); reflexivity.
Defined.


(** A server whose first read fails. *)
Lemma Run_greeting_fails_witness :
  specRun 5 (session [failedRead; ok greeting] [login])
  = Returned tt
      (closeProxy
         (finish
            (relayed (session [failedRead; ok greeting] [login])
                     (tl (incoming
                            (stream (session [failedRead; ok greeting]
                                             [login]))))
                     []))).
Proof.
  apply Run_greeting_fails. simpl. discriminate.
Defined.

Lemma x04_supported : In x04 supportedCodes.
Proof. simpl. tauto. Qed.

Lemma x17_unsupported : ~ In x17 supportedCodes.
Proof. simpl. intuition discriminate. Qed.

(** A FIELD_LIST command and its answer. *)
Lemma commandStep_relays_command_witness :
  specStep 2 (session [ok noteDefinition; ok endOfColumns] [fieldList; ping])
  = Returned tt
      (commanded
         (relayed (session [ok noteDefinition; ok endOfColumns]
                           [fieldList; ping])
                  [] ([noteDefinition] ++ [endOfColumns]))
         [ping] [fieldList]).
Proof.
  apply commandStep_relays_command with (cmd := x04).
  - reflexivity.
  - reflexivity.
  - exact x04_supported.
  - discriminate.
  - reflexivity.
  - repeat constructor.
  - reflexivity.
  - simpl. lia.
Defined.

(** Two unsupported commands in a row. *)
Lemma commandLoop_rejects_all_witness :
  specLoop 3 (session [ok pong] [prepare; execute])
  = Blocked
      (relayed (commanded (session [ok pong] [prepare; execute]) [] [])
               (incoming (stream (session [ok pong] [prepare; execute])))
               [SpecCodec.ErrorPacket x00 1002 "HY000" unsupportedFormat x16;
                SpecCodec.ErrorPacket x00 1002 "HY000" unsupportedFormat x17]).
Proof.
  apply commandLoop_rejects_all with (commands := [prepare; execute]).
  - reflexivity.
  - reflexivity.
  - constructor;
      [exists x16; repeat split; exact x16_unsupported|].
    constructor;
      [exists x17; repeat split; exact x17_unsupported|].
    constructor.
  - simpl. lia.
Defined.

(** A row of the safe column id. *)
Lemma readRowValues_safe_columns_witness :
  specRows (mkPacket x05 [x01; x37]) [idColumn]
  = option_map (fun fields => (map plainField fields, None))
      (decodeFields SpecCodec.ReadStringOrNull
         (SpecCodec.NewPacketParser (mkPacket x05 [x01; x37]))
         (List.length [idColumn])).
Proof.
  apply readRowValues_safe_columns. repeat constructor.
Defined.

(** ** The configuration file *)

(** X18: the configuration file passes the check exactly when the stat
    succeeds and none of the six permission bits of group and others is
    set in its mode; the owner's bits and the bits above them play no
    part. *)
Theorem verifyConfigPermissions_private (stat : option N) :
  verifyConfigPermissions stat = Passed
  <-> exists mode : N,
        stat = Some mode
        /\ forall i : N, (i < 6)%N -> N.testbit mode i = false.
Proof.
  unfold verifyConfigPermissions. destruct stat as [mode|].
  - change 63%N with (N.ones 6). rewrite N.land_ones.
    destruct (N.ltb_spec 0 (mode mod 2 ^ 6)) as [Hpos|Hzero]; split.
    + discriminate.
    + intros (mode' & [= <-] & Hbits). exfalso.
      assert (Hz : (mode mod 2 ^ 6 = 0)%N).
      { apply N.bits_inj_0. intros n.
        destruct (N.lt_ge_cases n 6) as [Hn|Hn].
        - rewrite N.mod_pow2_bits_low by exact Hn. apply Hbits. exact Hn.
        - apply N.mod_pow2_bits_high. exact Hn. }
      rewrite Hz in Hpos. exact (N.lt_irrefl _ Hpos).
    + intros _. exists mode. split; [reflexivity|].
      intros i Hi. rewrite <- (N.mod_pow2_bits_low mode 6 i Hi).
      assert (Hz : (mode mod 2 ^ 6 = 0)%N) by (apply N.le_0_r; exact Hzero).
      rewrite Hz. apply N.bits_0.
    + reflexivity.
  - split; [discriminate | intros (mode & H & _); discriminate].
Qed.
